(** * oabtop: the cache-aware retrying fetch and the sort/paginate view state

    A shallow embedding of [main.go]: the provider's [GetRecords] (cache
    check, retry loop with exponential backoff, decode, cache write-back) and
    the Bubble Tea model's [Update], [updateTable] and [sortRecords].

    Go values are modelled as follows.
    - [int] and [time.Duration] are 64-bit signed integers: a [Z] with the
      wrap-around ([wrap64]) or the saturation ([sat64]) that the operation
      has in Go written out.
    - [string] and [[]byte] are [string] (a list of bytes).
    - [float64] is the kernel's binary64 [float]; Go's [<] and [>] on it are
      [PrimFloat.ltb].
    - a slice is a [list]; an index or slice expression that is out of range
      is a run-time panic, modelled as [None].
    - the file system, the clock, the HTTP client and the logger are an
      explicit world threaded through a state monad; every effect leaves an
      [Event] in the world's trace. *)

From Stdlib Require Import ZArith List String Ascii Bool Lia Permutation Sorted.
From Stdlib Require Import Floats.PrimFloat Floats.SpecFloat Floats.FloatOps.
From Stdlib Require Import Floats.FloatAxioms.
Import ListNotations.
Local Open Scope string_scope.
Local Open Scope list_scope.
Local Open Scope Z_scope.

(** ** Go's machine integers and durations *)

Module GoInt.

Definition min_int : Z := - 2 ^ 63.
Definition max_int : Z := 2 ^ 63 - 1.

(** Two's-complement wrap-around of [+], [-], [*] on [int] / [int64]. *)
Definition wrap64 (z : Z) : Z := (z + 2 ^ 63) mod 2 ^ 64 - 2 ^ 63.

(** [time.Time.Sub] saturates instead of wrapping. *)
Definition sat64 (z : Z) : Z := Z.max min_int (Z.min max_int z).

Definition in_int (z : Z) : Prop := min_int <= z <= max_int.

(** [time.Second], in nanoseconds. *)
Definition Second : Z := 1000000000.

End GoInt.
Import GoInt.

(** ** Data model *)

(** [type CryptoRecord struct] *)
Record CryptoRecord : Type := mkRecord {
  ID          : string;
  Name        : string;
  Symbol      : string;
  PriceUSD    : float;
  Change1h    : float;
  Change24h   : float;
  Change7d    : float;
  MarketCap   : float;
  Volume24h   : float;
  TotalSupply : float
}.

(** A Go [error] value, by its message. *)
Definition error := string.

(** A Go result pair [(v, err)] in which exactly one side is meaningful. *)
Inductive Res (A : Type) : Type :=
| Ok  (a : A)
| Err (e : error).
Arguments Ok {A} a.
Arguments Err {A} e.

(** ** The provider's world *)

Module Provider.

(** What [p.client.Get] hands back on success: the status code and what
    [io.ReadAll(resp.Body)] will yield. *)
Record Response : Type := mkResponse {
  StatusCode : Z;
  Body       : Res string
}.

Definition StatusTooManyRequests : Z := 429.

(** The cache file [crypto_cache.json]: its modification time (nanoseconds
    on the world's clock) and what [os.ReadFile] yields for it. *)
Record File : Type := mkFile {
  ModTime  : Z;
  contents : Res string
}.

Inductive Event : Type :=
| EvGet   (perPage page : Z)                     (* one HTTP GET *)
| EvSleep (d : Z)                                (* time.Sleep(d) *)
| EvWrite (data : string) (failed : bool)        (* os.WriteFile(cache, data, 0644) *)
| EvLog   (operation : string) (err : option error).

Record World : Type := mkWorld {
  clock      : Z;              (* now, in nanoseconds *)
  cache_file : option File;    (* [None]: os.Stat fails *)
  gets       : nat;            (* HTTP requests issued so far *)
  trace      : list Event
}.

(** What the outside answers: the [n]-th HTTP request of the process, how
    long that request blocks the caller (in nanoseconds; the client's
    timeout of 10 seconds keeps it short, and is not relied on), and whether
    writing the cache file fails ([Some (e, f)]: it fails with [e] and
    leaves the file as [f], which need not be the file of before:
    [os.WriteFile] truncates before it writes). *)
Record Env : Type := mkEnv {
  http_Get    : nat -> Z -> Z -> Res Response;
  http_time   : nat -> N;
  write_fault : option (error * option File)
}.

(** *** State monad over the world *)

Definition M (A : Type) : Type := World -> A * World.

Definition ret {A} (a : A) : M A := fun w => (a, w).

Definition bind {A B} (c : M A) (k : A -> M B) : M B :=
  fun w => let (a, w') := c w in k a w'.

Notation "x <- c ;; k" := (bind c (fun x => k))
  (at level 61, c at next level, right associativity).
Notation "c ;;; k" := (bind c (fun _ => k))
  (at level 61, right associativity).

Definition emit (e : Event) : M unit :=
  fun w => (tt, mkWorld (clock w) (cache_file w) (gets w) (trace w ++ [e])).

(** [logOperation(operation, result, err)]: one line in the log, written
    under the mutex; the result summary is not kept. *)
Definition logOperation (operation : string) (err : option error) : M unit :=
  emit (EvLog operation err).

(** [os.Stat(cache)] followed by [cacheInfo.ModTime()]. *)
Definition os_Stat : M (Res Z) :=
  fun w => match cache_file w with
           | Some f => (Ok (ModTime f), w)
           | None => (Err "stat crypto_cache.json: no such file or directory", w)
           end.

(** [time.Since(t)] *)
Definition time_Since (t : Z) : M Z :=
  fun w => (sat64 (clock w - t), w).

(** [os.ReadFile(cache)] *)
Definition os_ReadFile : M (Res string) :=
  fun w => match cache_file w with
           | Some f => (contents f, w)
           | None => (Err "open crypto_cache.json: no such file or directory", w)
           end.

(** [time.Sleep(d)]: returns at once when [d <= 0]. *)
Definition time_Sleep (d : Z) : M unit :=
  fun w => (tt, mkWorld (clock w + Z.max 0 d) (cache_file w) (gets w)
                        (trace w ++ [EvSleep d])).

Section WithEnv.

Variable env : Env.

(** [p.client.Get(url)]; the URL is determined by [perPage] and [page].
    The call returns when the request is answered or has failed; the time
    this takes has passed on the clock. *)
Definition client_Get (perPage page : Z) : M (Res Response) :=
  fun w => (http_Get env (gets w) perPage page,
            mkWorld (clock w + Z.of_N (http_time env (gets w))) (cache_file w)
                    (S (gets w)) (trace w ++ [EvGet perPage page])).

(** [os.WriteFile(cache, data, 0644)] *)
Definition os_WriteFile (data : string) : M (option error) :=
  fun w => match write_fault env with
           | None =>
               (None, mkWorld (clock w) (Some (mkFile (clock w) (Ok data)))
                              (gets w) (trace w ++ [EvWrite data false]))
           | Some (e, f) =>
               (Some e, mkWorld (clock w) f (gets w)
                                (trace w ++ [EvWrite data true]))
           end.

(** [encoding/json] on [[]CryptoRecord].  [json.Unmarshal(data, &coins)]
    writes into the slice it is given and may leave it partly filled when
    it reports an error, so it takes the prior value of [coins] and
    returns the new one beside the error. *)
Variable json_Unmarshal : string -> list CryptoRecord -> list CryptoRecord * option error.
Variable json_Marshal : list CryptoRecord -> Res string.

(** The retry loop of [GetRecords] (lines 99-105):
<<
  for retries, delay := 0, time.Second; retries < 5; retries, delay = retries+1, delay*2 {
    resp, err = p.client.Get(url)
    if err == nil && resp.StatusCode != http.StatusTooManyRequests { break }
    time.Sleep(delay)
  }
>>
    [remaining] is [5 - retries]; [resp] and [err] are the two variables
    the loop assigns. *)
Fixpoint retry_loop (perPage page : Z) (remaining : nat) (delay : Z)
         (resp : option Response) (err : option error)
  : M (option Response * option error) :=
  match remaining with
  | O => ret (resp, err)
  | S k =>
      r <- client_Get perPage page ;;
      match r with
      | Ok rsp =>
          if negb (StatusCode rsp =? StatusTooManyRequests)
          then ret (Some rsp, None)
          else time_Sleep delay ;;;
               retry_loop perPage page k (wrap64 (delay * 2)) (Some rsp) None
      | Err e =>
          time_Sleep delay ;;;
          retry_loop perPage page k (wrap64 (delay * 2)) None (Some e)
      end
  end.

(** Lines 107-132 of [GetRecords]: what follows the loop, given the
    values it left in [resp] and [err].  [None] is the nil-pointer panic
    of [resp.Body] on a nil [resp]. *)
Definition afterRetry (re : option Response * option error)
           (coins : list CryptoRecord) : M (option (Res (list CryptoRecord))) :=
  match re with
  | (_, Some e) =>
      logOperation "API Request" (Some e) ;;;
      ret (Some (Err e))
  | (None, None) => ret None
  | (Some rsp, None) =>
      match Body rsp with
      | Err e =>
          logOperation "Read Response Body" (Some e) ;;;
          ret (Some (Err e))
      | Ok body =>
          logOperation "JSON Response" None ;;;
          match json_Unmarshal body coins with
          | (_, Some e) =>
              logOperation "Unmarshal Response" (Some e) ;;;
              ret (Some (Err e))
          | (coins', None) =>
              match json_Marshal coins' with
              | Ok data => os_WriteFile data ;;; ret tt
              | Err _ => ret tt
              end ;;;
              logOperation "Fetch Records" None ;;;
              ret (Some (Ok coins'))
          end
      end
  end.

(** Lines 95-132 of [GetRecords]: the network fetch, entered with the
    current values of [coins] and [err]. *)
Definition fetchRecords (page perPage : Z) (coins : list CryptoRecord)
           (err : option error) : M (option (Res (list CryptoRecord))) :=
  re <- retry_loop perPage page 5 Second None err ;;
  afterRetry re coins.

(** [func (p *CoingeckoProvider) GetRecords(page, perPage int)] *)
Definition GetRecords (page perPage : Z) : M (option (Res (list CryptoRecord))) :=
  let coins : list CryptoRecord := [] in
  st <- os_Stat ;;
  match st with
  | Ok mt =>
      age <- time_Since mt ;;
      if age <? 30 * Second then
        rd <- os_ReadFile ;;
        match rd with
        | Ok data =>
            match json_Unmarshal data coins with
            | (coins', None) =>
                logOperation "Cache Hit" None ;;;
                ret (Some (Ok coins'))
            | (coins', Some _) => fetchRecords page perPage coins' None
            end
        | Err _ => fetchRecords page perPage coins None
        end
      else fetchRecords page perPage coins None
  | Err e => fetchRecords page perPage coins (Some e)
  end.

End WithEnv.

(** *** Observations on a trace *)

Definition is_get (e : Event) : bool :=
  match e with EvGet _ _ => true | _ => false end.

(** Number of HTTP attempts in a trace. *)
Definition count_gets (t : list Event) : nat := List.length (filter is_get t).

(** The delays slept, in order. *)
Fixpoint sleeps (t : list Event) : list Z :=
  match t with
  | [] => []
  | EvSleep d :: t' => d :: sleeps t'
  | _ :: t' => sleeps t'
  end.

Definition total_sleep (t : list Event) : Z := fold_right Z.add 0 (sleeps t).

(** Time passing between two calls. *)
Definition advance (d : Z) (w : World) : World :=
  mkWorld (clock w + d) (cache_file w) (gets w) (trace w).

(** An attempt that the loop retries: an error, or an HTTP 429. *)
Definition failed (x : Res Response) : bool :=
  match x with
  | Ok rsp => StatusCode rsp =? StatusTooManyRequests
  | Err _ => true
  end.

(** The values [resp, err = p.client.Get(url)] assigns. *)
Definition vars_of (x : Res Response) : option Response * option error :=
  match x with
  | Ok rsp => (Some rsp, None)
  | Err e => (None, Some e)
  end.

(** The events of [k] retried attempts, the first one backing off by
    [delay]. *)
Fixpoint attempts (perPage page : Z) (k : nat) (delay : Z) : list Event :=
  match k with
  | O => []
  | S k' => EvGet perPage page :: EvSleep delay
            :: attempts perPage page k' (wrap64 (delay * 2))
  end.

(** The time [k] retried attempts sleep. *)
Fixpoint slept (k : nat) (delay : Z) : Z :=
  match k with
  | O => 0
  | S k' => Z.max 0 delay + slept k' (wrap64 (delay * 2))
  end.

(** The time the [k] requests from the [n]-th on take. *)
Fixpoint waited (env : Env) (n k : nat) : Z :=
  match k with
  | O => 0
  | S k' => Z.of_N (http_time env n) + waited env (S n) k'
  end.

(** The world after [k] retried attempts. *)
Definition after_failures (env : Env) (perPage page : Z) (k : nat) (delay : Z)
           (w : World) : World :=
  mkWorld (clock w + slept k delay + waited env (gets w) k) (cache_file w)
          (k + gets w) (trace w ++ attempts perPage page k delay).

(** The world after one more request. *)
Definition after_get (env : Env) (perPage page : Z) (w : World) : World :=
  mkWorld (clock w + Z.of_N (http_time env (gets w))) (cache_file w) (S (gets w))
          (trace w ++ [EvGet perPage page]).

(** The snapshot is fresh and decodes to [rs]: the cache-hit path. *)
Definition cache_hit (json_Unmarshal : string -> list CryptoRecord ->
                                       list CryptoRecord * option error)
           (w : World) (rs : list CryptoRecord) : Prop :=
  exists f data,
    cache_file w = Some f /\
    sat64 (clock w - ModTime f) < 30 * Second /\
    contents f = Ok data /\
    json_Unmarshal data [] = (rs, None).

(** The snapshot is absent, not fresh, unreadable, or does not decode;
    [coins] is what the attempt to decode left in the result slice. *)
Definition cache_miss (json_Unmarshal : string -> list CryptoRecord ->
                                        list CryptoRecord * option error)
           (w : World) (coins : list CryptoRecord) : Prop :=
  (cache_file w = None /\ coins = []) \/
  (exists f, cache_file w = Some f /\
             30 * Second <= sat64 (clock w - ModTime f) /\ coins = []) \/
  (exists f e, cache_file w = Some f /\
               sat64 (clock w - ModTime f) < 30 * Second /\
               contents f = Err e /\ coins = []) \/
  (exists f data e, cache_file w = Some f /\
                    sat64 (clock w - ModTime f) < 30 * Second /\
                    contents f = Ok data /\
                    json_Unmarshal data [] = (coins, Some e)).

(** Record lists that [json.Unmarshal] can have produced, starting from
    the nil slice: every string in them is valid UTF-8 and every number is
    finite. *)
Inductive from_json (json_Unmarshal : string -> list CryptoRecord ->
                                      list CryptoRecord * option error)
  : list CryptoRecord -> Prop :=
| from_json_nil : from_json json_Unmarshal []
| from_json_dec data prior rs e :
    from_json json_Unmarshal prior ->
    json_Unmarshal data prior = (rs, e) ->
    from_json json_Unmarshal rs.

(** *** Further observations *)

Definition is_write (e : Event) : bool :=
  match e with EvWrite _ _ => true | _ => false end.

(** Number of attempts to write the cache file in a trace. *)
Definition count_writes (t : list Event) : nat := List.length (filter is_write t).

(** The error of a result, [nil] on success. *)
Definition err_of {A} (res : Res A) : option error :=
  match res with
  | Ok _ => None
  | Err e => Some e
  end.

(** The operation tags [GetRecords] logs on success and on failure. *)
Definition success_tags : list string := ["Cache Hit"; "Fetch Records"].
Definition failure_tags : list string :=
  ["API Request"; "Read Response Body"; "Unmarshal Response"].

(** The delays [1s, 2s, 4s, ...] of the first [k] retried attempts. *)
Definition doubling (k : nat) : list Z :=
  map (fun i => 2 ^ Z.of_nat i * Second) (seq 0 k).

End Provider.

(** ** The view state: sorting and pagination *)

Module View.

(** *** Strings *)

(** The value of a byte. *)
Definition byte_val (c : ascii) : Z := Z.of_N (N_of_ascii c).

(** [s[0]]: the first byte, or the index-out-of-range panic. *)
Definition index0 (s : string) : option ascii :=
  match s with
  | EmptyString => None
  | String c _ => Some c
  end.

Definition is_upper (c : ascii) : bool :=
  (byte_val "A" <=? byte_val c) && (byte_val c <=? byte_val "Z").

(** [c += 'a' - 'A'] on a byte. *)
Definition lower_byte (c : ascii) : ascii :=
  if is_upper c then ascii_of_N (N_of_ascii c + 32) else c.

Fixpoint isASCII (s : string) : bool :=
  match s with
  | EmptyString => true
  | String c s' => (byte_val c <? 128) && isASCII s'
  end.

Fixpoint hasUpper (s : string) : bool :=
  match s with
  | EmptyString => false
  | String c s' => is_upper c || hasUpper s'
  end.

Fixpoint lower_bytes (s : string) : string :=
  match s with
  | EmptyString => EmptyString
  | String c s' => String (lower_byte c) (lower_bytes s')
  end.

(** [getSortArrow]: a space and the UTF-8 bytes of the up or down arrow. *)
Definition getSortArrow (asc : bool) : string :=
  if asc
  then String " " (String "226" (String "134" (String "145" EmptyString)))
  else String " " (String "226" (String "134" (String "147" EmptyString))).

(** *** Slices *)

Definition len {A} (l : list A) : Z := Z.of_nat (List.length l).

(** [l[lo:hi]], or the slice-bounds panic.  The upper bound Go checks is
    the capacity; [updateTable] clamps [hi] to the length first, so the
    length is the bound that matters here. *)
Definition slice {A} (l : list A) (lo hi : Z) : option (list A) :=
  if (0 <=? lo) && (lo <=? hi) && (hi <=? len l)
  then Some (firstn (Z.to_nat (hi - lo)) (skipn (Z.to_nat lo) l))
  else None.

(** [for i, x := range l] with the index as a Go [int]. *)
Fixpoint range_from {A} (i : Z) (l : list A) : list (Z * A) :=
  match l with
  | [] => []
  | x :: l' => (i, x) :: range_from (i + 1) l'
  end.

(** *** The model *)

(** What the table widget is given: column titles with their widths, and
    one row per visible record, headed by its rank.  The cell texts are
    formatted from the record by [fmt] and [lipgloss], outside this
    embedding. *)
Record Table : Type := mkTable {
  columns : list (string * Z);
  rows    : list (Z * CryptoRecord)
}.

(** [type model struct]; the spinner is left out. *)
Record model : Type := mkModel {
  table   : Table;
  loading : bool;
  records : list CryptoRecord;
  page    : Z;
  perPage : Z;
  sortBy  : string;
  sortAsc : bool
}.

Definition set_table (m : model) (t : Table) : model :=
  mkModel t (loading m) (records m) (page m) (perPage m) (sortBy m) (sortAsc m).
Definition set_records (m : model) (rs : list CryptoRecord) : model :=
  mkModel (table m) (loading m) rs (page m) (perPage m) (sortBy m) (sortAsc m).
Definition set_page (m : model) (p : Z) : model :=
  mkModel (table m) (loading m) (records m) p (perPage m) (sortBy m) (sortAsc m).
Definition set_sort (m : model) (k : string) (asc : bool) : model :=
  mkModel (table m) (loading m) (records m) (page m) (perPage m) k asc.

(** [tea.Msg], as far as [Update] looks at it. *)
Inductive Msg : Type :=
| KeyMsg (key : string)
| TickMsg
| WindowSizeMsg (Width Height : Z).

Definition base_columns : list (string * Z) :=
  [("Rank", 6); ("Name", 20); ("Symbol", 10); ("Price (USD)", 15); ("1h", 8);
   ("24h", 8); ("7d", 8); ("Market Cap", 15); ("Volume (24h)", 15);
   ("Total Supply", 15)].

(** The column a sort key decorates. *)
Definition column_of_key (key : string) : option nat :=
  if (key =? "r")%string then Some 0%nat
  else if (key =? "n")%string then Some 1%nat
  else if (key =? "p")%string then Some 3%nat
  else if (key =? "1")%string then Some 4%nat
  else if (key =? "2")%string then Some 5%nat
  else if (key =? "7")%string then Some 6%nat
  else if (key =? "m")%string then Some 7%nat
  else if (key =? "a")%string then Some 8%nat
  else if (key =? "t")%string then Some 9%nat
  else None.

(** [columns[i].Title += suffix] *)
Fixpoint add_to_title (i : nat) (suffix : string) (cs : list (string * Z))
  : list (string * Z) :=
  match cs, i with
  | [], _ => []
  | (t, w) :: cs', O => ((t ++ suffix)%string, w) :: cs'
  | c :: cs', S j => c :: add_to_title j suffix cs'
  end.

(** [func (m *model) updateTable()] *)
Definition updateTable (m : model) : option model :=
  let start := wrap64 (wrap64 (page m - 1) * perPage m) in
  let end0 := wrap64 (start + perPage m) in
  let end_ := if end0 >? len (records m) then len (records m) else end0 in
  let cols :=
    match column_of_key (sortBy m) with
    | Some i => add_to_title i (getSortArrow (sortAsc m)) base_columns
    | None => base_columns
    end in
  match slice (records m) start end_ with
  | None => None
  | Some window =>
      Some (set_table m (mkTable cols (range_from (wrap64 (1 + start)) window)))
  end.

Section WithLibraries.

(** [strings.Map(unicode.ToLower, s)], the path [strings.ToLower] takes
    for a string with a byte outside ASCII; the Unicode case tables are
    not part of this development. *)
Variable unicode_Map_ToLower : string -> string.

(** [strings.ToLower]: an ASCII-only string is returned as it is when it
    has no upper-case letter and with ['A'..'Z'] shifted to ['a'..'z']
    otherwise. *)
Definition ToLower (s : string) : string :=
  if isASCII s
  then if hasUpper s then lower_bytes s else s
  else unicode_Map_ToLower s.

(** [sort.Slice(m.records, less)]: [less i j] reads the elements that are
    at [i] and [j] of the slice being sorted, so it is a function of the
    two records.  A panic inside [less] ends the sort. *)
Variable sort_Slice :
  (CryptoRecord -> CryptoRecord -> option bool) ->
  list CryptoRecord -> option (list CryptoRecord).

(** The closures of the numeric cases of [sortRecords]:
    [x < y] when ascending, [x > y] otherwise. *)
Definition less_float (field : CryptoRecord -> float) (asc : bool)
           (a b : CryptoRecord) : option bool :=
  Some (if asc then PrimFloat.ltb (field a) (field b)
        else PrimFloat.ltb (field b) (field a)).

(** The closure of [case "n"]: both operands of the comparison index the
    lower-cased name at 0. *)
Definition less_name (asc : bool) (a b : CryptoRecord) : option bool :=
  match index0 (ToLower (Name a)) with
  | None => None
  | Some x =>
      match index0 (ToLower (Name b)) with
      | None => None
      | Some y =>
          Some (if asc then byte_val x <? byte_val y
                else byte_val y <? byte_val x)
      end
  end.

(** The comparator [sortRecords] selects for a key; [None] when the
    [switch] has no case for it. *)
Definition comparator (key : string) (asc : bool)
  : option (CryptoRecord -> CryptoRecord -> option bool) :=
  if (key =? "r")%string then Some (less_float MarketCap asc)
  else if (key =? "n")%string then Some (less_name asc)
  else if (key =? "p")%string then Some (less_float PriceUSD asc)
  else if (key =? "1")%string then Some (less_float Change1h asc)
  else if (key =? "2")%string then Some (less_float Change24h asc)
  else if (key =? "7")%string then Some (less_float Change7d asc)
  else if (key =? "m")%string then Some (less_float MarketCap asc)
  else if (key =? "a")%string then Some (less_float Volume24h asc)
  else if (key =? "t")%string then Some (less_float TotalSupply asc)
  else None.

(** [func (m *model) sortRecords()] *)
Definition sortRecords (m : model) : option model :=
  match comparator (sortBy m) (sortAsc m) with
  | None => Some m
  | Some less =>
      match sort_Slice less (records m) with
      | None => None
      | Some rs => Some (set_records m rs)
      end
  end.

(** Lines 183-188 of [Update]: the same key flips the direction, another
    key becomes the active one, ascending. *)
Definition toggleSort (key : string) (m : model) : model :=
  if (sortBy m =? key)%string
  then set_sort m (sortBy m) (negb (sortAsc m))
  else set_sort m key true.

Definition is_sort_key (key : string) : bool :=
  existsb (String.eqb key) ["r"; "n"; "p"; "1"; "2"; "7"; "m"; "a"; "t"].

(** [func (m model) Update(msg tea.Msg)], on the fields of the model.
    The receiver is a copy, which is returned.  Keys that only concern
    the table widget or the runtime (focus, quit, the cursor), the spinner
    tick and the resize leave these fields as they are.  The [enter] key
    echoes [m.table.SelectedRow()[1]]: in a table without rows
    [SelectedRow] is nil and the index expression panics; the widget keeps
    its cursor on a row when there is one, and a row has ten cells. *)
Definition Update (msg : Msg) (m : model) : option model :=
  match msg with
  | KeyMsg key =>
      if (key =? "enter")%string then
        match rows (table m) with
        | [] => None
        | _ :: _ => Some m
        end
      else if (key =? "right")%string then
        if wrap64 (page m * perPage m) <? len (records m)
        then updateTable (set_page m (wrap64 (page m + 1)))
        else Some m
      else if (key =? "left")%string then
        if page m >? 1
        then updateTable (set_page m (wrap64 (page m - 1)))
        else Some m
      else if is_sort_key key then
        match sortRecords (toggleSort key m) with
        | None => None
        | Some m2 => updateTable m2
        end
      else Some m
  | TickMsg => Some m
  | WindowSizeMsg _ _ => Some m
  end.

(** The model [main] starts the program with: every fetched record is a
    row, the headers carry no arrow. *)
Definition initial_model (rs : list CryptoRecord) : model :=
  mkModel (mkTable base_columns (range_from 1 rs)) false rs 1 50 "r" true.

(** The states the program can be in after handling a list of messages. *)
Fixpoint run (msgs : list Msg) (m : model) : option model :=
  match msgs with
  | [] => Some m
  | msg :: msgs' =>
      match Update msg m with
      | None => None
      | Some m' => run msgs' m'
      end
  end.

End WithLibraries.

(** *** [sort.Slice] on short slices

    For a slice of at most 12 elements [sort.Slice] is the insertion sort
<<
    for i := a + 1; i < b; i++ {
      for j := i; j > a && less(j, j-1); j-- { swap(j, j-1) }
    }
>>
    The sorted prefix is kept with its last element first. *)

Section InsertionSort.

Context {A : Type}.
Variable less : A -> A -> option bool.

(** The inner loop: [x] moves left past every element it is less than. *)
Fixpoint sift (x : A) (prefix : list A) : option (list A) :=
  match prefix with
  | [] => Some [x]
  | y :: prefix' =>
      match less x y with
      | None => None
      | Some true =>
          match sift x prefix' with
          | None => None
          | Some p => Some (y :: p)
          end
      | Some false => Some (x :: y :: prefix')
      end
  end.

(** The outer loop. *)
Fixpoint insertion_loop (prefix : list A) (rest : list A) : option (list A) :=
  match rest with
  | [] => Some (rev prefix)
  | x :: rest' =>
      match sift x prefix with
      | None => None
      | Some prefix' => insertion_loop prefix' rest'
      end
  end.

Definition insertionSort_func (l : list A) : option (list A) :=
  insertion_loop [] l.

(** The order kept in the prefix: its head is its greatest element. *)
Definition descending : list A -> Prop :=
  StronglySorted (fun a b => less a b = Some false).

End InsertionSort.

(** *** What is relied on of [sort.Slice] *)

Section SortContract.

Variable sort_Slice :
  (CryptoRecord -> CryptoRecord -> option bool) ->
  list CryptoRecord -> option (list CryptoRecord).

(** [less] never panics on elements of [l]. *)
Definition total_on (less : CryptoRecord -> CryptoRecord -> option bool)
           (l : list CryptoRecord) : Prop :=
  forall a b, In a l -> In b l -> less a b <> None.

(** [less] is a strict weak ordering of the elements of [l], which is what
    the documentation of [sort.Slice] asks of it. *)
Definition strict_weak_on (less : CryptoRecord -> CryptoRecord -> option bool)
           (l : list CryptoRecord) : Prop :=
  total_on less l /\
  (forall a, In a l -> less a a = Some false) /\
  (forall a b c, In a l -> In b l -> In c l ->
                 less a b = Some true -> less b c = Some true ->
                 less a c = Some true) /\
  (forall a b c, In a l -> In b l -> In c l ->
                 less a b = Some false -> less b c = Some false ->
                 less a c = Some false).

(** The slice is reordered by swaps. *)
Definition sort_permutes : Prop :=
  forall less l out, sort_Slice less l = Some out -> Permutation l out.

(** The sort ends when [less] does not panic. *)
Definition sort_returns : Prop :=
  forall less l, total_on less l -> sort_Slice less l <> None.

(** Under a strict weak ordering no element is less than one before it. *)
Definition sort_orders : Prop :=
  forall less l out,
    strict_weak_on less l -> sort_Slice less l = Some out ->
    StronglySorted (fun a b => less b a = Some false) out.

(** A slice of fewer than two elements is left alone, [less] is not
    called. *)
Definition sort_short : Prop :=
  forall less l, (List.length l < 2)%nat -> sort_Slice less l = Some l.

(** In a slice of two or more elements every element is compared at least
    once: an element on which [less] panics makes the sort panic. *)
Definition sort_compares_all : Prop :=
  forall less l x,
    (2 <= List.length l)%nat -> In x l ->
    (forall y, less x y = None /\ less y x = None) ->
    sort_Slice less l = None.

End SortContract.

(** *** Go's limits on the state *)

(** The size of a [CryptoRecord] in bytes on a 64-bit platform: three string
    headers and seven [float64]. *)
Definition sizeof_CryptoRecord : Z := 3 * 16 + 7 * 8.

(** The backing array of a slice fits the address space. *)
Definition allocatable (rs : list CryptoRecord) : Prop :=
  len rs * sizeof_CryptoRecord <= max_int.

(** What holds of every state the program reaches from [initial_model rs]:
    the page size is 50, the page is at least 1 and starts inside the
    records, of which there are as many as at the start. *)
Definition window_ok (rs : list CryptoRecord) (m : model) : Prop :=
  perPage m = 50 /\ 1 <= page m /\
  (page m - 1) * 50 <= len (records m) /\
  len (records m) = len rs.

(** The messages of page navigation and of sorting. *)
Definition nav_or_sort (msg : Msg) : bool :=
  match msg with
  | KeyMsg key => (key =? "right")%string || (key =? "left")%string || is_sort_key key
  | _ => false
  end.

(** *** What is drawn *)

(** What [View] returns: the spinner line while loading, else the rendered
    table. *)
Inductive Screen : Type :=
| LoadingScreen
| TableScreen (t : Table).

(** [func (m model) View() string] *)
Definition View (m : model) : Screen :=
  if loading m then LoadingScreen else TableScreen (table m).

(** *** Keys of the orderings *)

(** The field a numeric sort key compares; the name key has none. *)
Definition field_of_key (key : string) : option (CryptoRecord -> float) :=
  if (key =? "r")%string then Some MarketCap
  else if (key =? "p")%string then Some PriceUSD
  else if (key =? "1")%string then Some Change1h
  else if (key =? "2")%string then Some Change24h
  else if (key =? "7")%string then Some Change7d
  else if (key =? "m")%string then Some MarketCap
  else if (key =? "a")%string then Some Volume24h
  else if (key =? "t")%string then Some TotalSupply
  else None.

(** The first character of a string as the claim on the name order reads
    it: the code point of the first UTF-8 sequence, decoded the way Go's
    [utf8.DecodeRuneInString] does (U+FFFD for an ill-formed sequence);
    [None] for the empty string. *)
Definition first_character (s : string) : option Z :=
  let cont (c : ascii) := (128 <=? byte_val c) && (byte_val c <=? 191) in
  let within (lo hi : Z) (c : ascii) := (lo <=? byte_val c) && (byte_val c <=? hi) in
  match s with
  | EmptyString => None
  | String b0 s1 =>
      let x0 := byte_val b0 in
      if x0 <? 128 then Some x0
      else if (194 <=? x0) && (x0 <=? 223) then
        match s1 with
        | String b1 _ =>
            if cont b1 then Some ((x0 - 192) * 64 + (byte_val b1 - 128))
            else Some 65533
        | _ => Some 65533
        end
      else if (224 <=? x0) && (x0 <=? 239) then
        match s1 with
        | String b1 (String b2 _) =>
            if within (if x0 =? 224 then 160 else 128)
                      (if x0 =? 237 then 159 else 191) b1 && cont b2
            then Some ((x0 - 224) * 4096 + (byte_val b1 - 128) * 64
                       + (byte_val b2 - 128))
            else Some 65533
        | _ => Some 65533
        end
      else if (240 <=? x0) && (x0 <=? 244) then
        match s1 with
        | String b1 (String b2 (String b3 _)) =>
            if within (if x0 =? 240 then 144 else 128)
                      (if x0 =? 244 then 143 else 191) b1 && cont b2 && cont b3
            then Some ((x0 - 240) * 262144 + (byte_val b1 - 128) * 4096
                       + (byte_val b2 - 128) * 64 + (byte_val b3 - 128))
            else Some 65533
        | _ => Some 65533
        end
      else Some 65533
  end.

(** The byte the name comparator looks at, 0 for a name lower-cased to the
    empty string. *)
Definition name_key (unicode_Map_ToLower : string -> string) (r : CryptoRecord) : Z :=
  match index0 (ToLower unicode_Map_ToLower (Name r)) with
  | Some c => byte_val c
  | None => 0
  end.

(** A float that is not NaN, placed in the order of [<]: its class (from
    minus infinity, -2, to plus infinity, 2), then exponent and mantissa,
    negated for negative numbers. *)
Definition float_rank (f : spec_float) : Z * Z * Z :=
  match f with
  | S754_zero _ => (0, 0, 0)
  | S754_infinity true => (-2, 0, 0)
  | S754_infinity false => (2, 0, 0)
  | S754_nan => (0, 0, 0)
  | S754_finite true m e => (-1, - e, - Zpos m)
  | S754_finite false m e => (1, e, Zpos m)
  end.

Definition rank_lt (a b : Z * Z * Z) : Prop :=
  let '(a1, a2, a3) := a in
  let '(b1, b2, b3) := b in
  a1 < b1 \/ (a1 = b1 /\ (a2 < b2 \/ (a2 = b2 /\ a3 < b3))).

(** *** Pages *)

(** The number of pages of [n] records at 50 a page, at least one. *)
Definition pages (rs : list CryptoRecord) : Z := Z.max 1 ((len rs + 49) / 50).

(** A state reached by navigation: [window_ok], and a page beyond the first
    starts strictly inside the records. *)
Definition nav_ok (rs : list CryptoRecord) (m : model) : Prop :=
  window_ok rs m /\ (page m = 1 \/ (page m - 1) * 50 < len rs).

End View.

(** ** Concrete inputs

    Closed inputs on which the definitions above are run. *)

Module Sample.
Import Provider View.

(** A record with the given name and market capitalisation. *)
Definition coin (name : string) (cap : float) : CryptoRecord :=
  mkRecord name name name 0 0 0 0 cap 0 0.

(** A small codec in the place of [encoding/json]: after an opening
    bracket every byte stands for one record; anything else is a decoding
    error that leaves the destination as it was. *)
Definition record_of_byte (c : ascii) : CryptoRecord := coin (String c "") 0.

Definition byte_of_record (r : CryptoRecord) : ascii :=
  match ID r with
  | String c _ => c
  | EmptyString => "000"%char
  end.

Definition sample_Unmarshal (data : string) (prior : list CryptoRecord)
  : list CryptoRecord * option error :=
  match data with
  | String "[" rest => (map record_of_byte (list_ascii_of_string rest), None)
  | _ => (prior, Some "invalid character looking for beginning of value")
  end.

Definition sample_Marshal (rs : list CryptoRecord) : Res string :=
  Ok (String "[" (string_of_list_ascii (map byte_of_record rs))).

(** [strings.Map(unicode.ToLower, s)] on UTF-8 text whose cased letters
    are in the Basic Latin and Latin-1 Supplement blocks: ['A'..'Z'] and the
    two-byte capitals U+00C0..U+00DE (all but the sign U+00D7) are moved to
    their lower-case forms, every other byte is kept. *)
Fixpoint caseless (s : string) : string :=
  match s with
  | EmptyString => EmptyString
  | String c s' =>
      if byte_val c =? 195 then
        match s' with
        | EmptyString => String c EmptyString
        | String d s'' =>
            if (128 <=? byte_val d) && (byte_val d <=? 158) && negb (byte_val d =? 151)
            then String c (String (ascii_of_N (N_of_ascii d + 32)) (caseless s''))
            else String c (String d (caseless s''))
        end
      else String (lower_byte c) (caseless s')
  end.

Definition ok_response (body : string) : Response := mkResponse 200 (Ok body).
Definition rate_limited : Response := mkResponse 429 (Ok "Too Many Requests").

(** Four HTTP 429 answers, then a page of two records. *)
Definition env_429_then_ok : Env :=
  mkEnv (fun n _ _ => if (n <? 4)%nat then Ok rate_limited else Ok (ok_response "[ab"))
        (fun _ => 200000000%N) None.

(** Every request is answered with HTTP 429 and a JSON array as body. *)
Definition env_always_429 : Env :=
  mkEnv (fun _ _ _ => Ok (mkResponse 429 (Ok "[x"))) (fun _ => 200000000%N) None.

(** Every request fails in the transport, after 3 milliseconds. *)
Definition env_offline : Env :=
  mkEnv (fun _ _ _ => Err "dial tcp: connection refused") (fun _ => 3000000%N) None.


(** The first request succeeds, after 200 milliseconds. *)
Definition env_online : Env :=
  mkEnv (fun _ _ _ => Ok (ok_response "[ab")) (fun _ => 200000000%N) None.

(** No cache file, at time 0. *)
Definition world_cold : World := mkWorld 0 None 0 [].

(** A cache file of two records written 5 seconds ago. *)
Definition world_fresh : World :=
  mkWorld (100 * Second) (Some (mkFile (95 * Second) (Ok "[cd"))) 0 [].

(** The same file, 60 seconds old. *)
Definition world_stale : World :=
  mkWorld (155 * Second) (Some (mkFile (95 * Second) (Ok "[cd"))) 0 [].

(** Three records of market capitalisation 5, 1 and 3. *)
Definition three_coins : list CryptoRecord :=
  [coin "Bitcoin" 5; coin "Ethereum" 1; coin "BNB" 3].

(** A page of 120 records. *)
Definition many_coins : list CryptoRecord := repeat (coin "Coin" 1) 120.

(** A record whose name is empty, as decoded from an object without
    ["name"]. *)
Definition unnamed : CryptoRecord := coin "" 2.

(** Two names that start with a character outside ASCII: U+00E9 is the
    bytes 195 169 in UTF-8 and U+00FC the bytes 195 188. *)
Definition elan : CryptoRecord := coin (String "195" (String "169" "lan")) 1.
Definition uber : CryptoRecord := coin (String "195" (String "188" "ber")) 2.

(** Key presses of navigation and sorting. *)
Definition a_session : list Msg :=
  [KeyMsg "right"; KeyMsg "n"; KeyMsg "right"; KeyMsg "right"; KeyMsg "a";
   KeyMsg "left"].

(** The model of a program started on the given records. *)
Definition started (rs : list CryptoRecord) : model :=
  initial_model rs.

(** The same with the name key active. *)
Definition by_name (rs : list CryptoRecord) : model :=
  set_sort (initial_model rs) "n" true.

(** After one HTTP 429 the server answers with status 500 and a body that
    is not JSON. *)
Definition env_server_error : Env :=
  mkEnv (fun n _ _ => if (n <? 1)%nat then Ok rate_limited
                      else Ok (mkResponse 500 (Ok "Internal Server Error")))
        (fun _ => 200000000%N) None.

End Sample.

(** * Properties *)

(** ** Machine integers *)

Lemma wrap64_id z : in_int z -> wrap64 z = z.
Proof.
  unfold in_int, wrap64, min_int, max_int. intros H.
  rewrite Z.mod_small; lia.
Qed.

Lemma wrap64_range z : in_int (wrap64 z).
Proof.
  unfold in_int, wrap64, min_int, max_int.
  pose proof (Z.mod_pos_bound (z + 2 ^ 63) (2 ^ 64) ltac:(lia)). lia.
Qed.

Lemma sat64_id z : in_int z -> sat64 z = z.
Proof. unfold in_int, sat64. lia. Qed.

Lemma wrap64_mod z : wrap64 z mod 2 ^ 64 = z mod 2 ^ 64.
Proof.
  unfold wrap64. rewrite Zminus_mod, Z.mod_mod by lia.
  rewrite <- Zminus_mod. f_equal. lia.
Qed.

Lemma wrap64_congr x y : x mod 2 ^ 64 = y mod 2 ^ 64 -> wrap64 x = wrap64 y.
Proof.
  intros H. unfold wrap64. f_equal.
  now rewrite (Zplus_mod x), (Zplus_mod y), H.
Qed.

(** [(page - 1) * perPage + perPage] is [page * perPage], in Go's
    arithmetic as well. *)
Lemma wrap64_window_start p pp :
  wrap64 (wrap64 (p - 1) * pp) = wrap64 ((p - 1) * pp).
Proof.
  apply wrap64_congr.
  now rewrite Zmult_mod, wrap64_mod, <- Zmult_mod.
Qed.

Lemma wrap64_window_end p pp :
  wrap64 (wrap64 (wrap64 (p - 1) * pp) + pp) = wrap64 (p * pp).
Proof.
  apply wrap64_congr.
  rewrite Zplus_mod, wrap64_mod, Zmult_mod, wrap64_mod, <- Zmult_mod, <- Zplus_mod.
  f_equal. lia.
Qed.

(** ** The provider *)

Module ProviderFacts.
Import Provider.

Lemma count_gets_app t1 t2 :
  count_gets (t1 ++ t2) = (count_gets t1 + count_gets t2)%nat.
Proof. unfold count_gets. now rewrite filter_app, length_app. Qed.

Lemma sleeps_app t1 t2 : sleeps (t1 ++ t2) = sleeps t1 ++ sleeps t2.
Proof.
  induction t1 as [|e t1 IH]; simpl; [reflexivity|].
  destruct e; simpl; now rewrite IH.
Qed.

Lemma total_sleep_app t1 t2 :
  total_sleep (t1 ++ t2) = total_sleep t1 + total_sleep t2.
Proof.
  unfold total_sleep. rewrite sleeps_app.
  induction (sleeps t1) as [|d l IH]; simpl; lia.
Qed.

Lemma count_gets_attempts pp p k delay :
  count_gets (attempts pp p k delay) = k.
Proof.
  revert delay. induction k as [|k IH]; intros delay; [reflexivity|].
  simpl. unfold count_gets in *. simpl. now rewrite IH.
Qed.

Section Loop.

Variable env : Env.
Variables perPage page : Z.

Local Abbreviation loop := (retry_loop env perPage page).
Local Abbreviation answer w i := (http_Get env (i + gets w) perPage page).

(** One turn of the loop. *)
Lemma retry_loop_step k delay resp err w :
  loop (S k) delay resp err w =
  let w1 := mkWorld (clock w + Z.of_N (http_time env (gets w)) + Z.max 0 delay)
                    (cache_file w) (S (gets w))
                    ((trace w ++ [EvGet perPage page]) ++ [EvSleep delay]) in
  match http_Get env (gets w) perPage page with
  | Ok rsp =>
      if StatusCode rsp =? StatusTooManyRequests
      then loop k (wrap64 (delay * 2)) (Some rsp) None w1
      else ((Some rsp, None), after_get env perPage page w)
  | Err e => loop k (wrap64 (delay * 2)) None (Some e) w1
  end.
Proof.
  cbn [retry_loop]. unfold bind, client_Get, time_Sleep, ret, after_get.
  destruct (http_Get env (gets w) perPage page) as [rsp|e]; [|reflexivity].
  now destruct (StatusCode rsp =? StatusTooManyRequests).
Qed.

(** Attempts that all fail run the loop to its end: it leaves the
    outcome of the last one in [resp] and [err]. *)
Lemma retry_loop_exhausted n :
  forall delay resp err w,
    (forall i, (i < n)%nat -> failed (answer w i) = true) ->
    loop n delay resp err w =
    (match n with
     | O => (resp, err)
     | S m => vars_of (answer w m)
     end, after_failures env perPage page n delay w).
Proof.
  induction n as [|n IH]; intros delay resp err w Hf.
  - simpl. unfold ret, after_failures. simpl.
    rewrite !Z.add_0_r, app_nil_r. now destruct w.
  - pose proof (Hf O ltac:(lia)) as H0. simpl in H0.
    cbn [retry_loop]. unfold bind at 1, client_Get.
    destruct (http_Get env (gets w) perPage page) as [rsp|e] eqn:Hg.
    + simpl in H0. unfold StatusTooManyRequests in *. rewrite H0. cbn [negb].
      unfold bind at 1, time_Sleep.
      rewrite IH.
      * f_equal.
        { destruct n as [|m]; [cbn; now rewrite Hg|]. cbn [gets].
          now replace (m + S (gets w))%nat with (S m + gets w)%nat by lia. }
        { unfold after_failures.
          cbn [clock cache_file gets trace attempts slept waited].
          f_equal; [lia | lia | now rewrite <- !app_assoc]. }
      * intros i Hi. cbn [gets].
        replace (i + S (gets w))%nat with (S i + gets w)%nat by lia.
        apply Hf. lia.
    + unfold bind at 1, time_Sleep.
      rewrite IH.
      * f_equal.
        { destruct n as [|m]; [cbn; now rewrite Hg|]. cbn [gets].
          now replace (m + S (gets w))%nat with (S m + gets w)%nat by lia. }
        { unfold after_failures.
          cbn [clock cache_file gets trace attempts slept waited].
          f_equal; [lia | lia | now rewrite <- !app_assoc]. }
      * intros i Hi. cbn [gets].
        replace (i + S (gets w))%nat with (S i + gets w)%nat by lia.
        apply Hf. lia.
Qed.

(** The first attempt that does not fail ends the loop at once, with no
    sleep after it. *)
Lemma retry_loop_success k :
  forall n delay resp err w rsp,
    (forall i, (i < k)%nat -> failed (answer w i) = true) ->
    answer w k = Ok rsp ->
    StatusCode rsp <> StatusTooManyRequests ->
    loop (k + S n) delay resp err w =
    ((Some rsp, None),
     after_get env perPage page (after_failures env perPage page k delay w)).
Proof.
  induction k as [|k IH]; intros n delay resp err w rsp Hf Hk Hs.
  - simpl in Hk. cbn [Nat.add retry_loop]. unfold bind at 1, client_Get.
    rewrite Hk.
    apply Z.eqb_neq in Hs. rewrite Hs. cbn [negb]. unfold ret.
    f_equal. unfold after_get, after_failures. simpl.
    now rewrite !Z.add_0_r, app_nil_r.
  - pose proof (Hf O ltac:(lia)) as H0. simpl in H0.
    cbn [Nat.add retry_loop]. unfold bind at 1, client_Get.
    assert (Hstep : forall w1 r1 e1,
               gets w1 = S (gets w) ->
               loop (k + S n) (wrap64 (delay * 2)) r1 e1 w1 =
               ((Some rsp, None),
                after_get env perPage page
                  (after_failures env perPage page k (wrap64 (delay * 2)) w1))).
    { intros w1 r1 e1 Hw1. apply IH; [| |exact Hs].
      - intros i Hi. rewrite Hw1.
        replace (i + S (gets w))%nat with (S i + gets w)%nat by lia.
        apply Hf. lia.
      - rewrite Hw1.
        now replace (k + S (gets w))%nat with (S k + gets w)%nat by lia. }
    assert (Hw : forall w1,
               w1 = mkWorld (clock w + Z.of_N (http_time env (gets w)) + Z.max 0 delay)
                            (cache_file w) (S (gets w))
                            ((trace w ++ [EvGet perPage page]) ++ [EvSleep delay]) ->
               after_get env perPage page
                 (after_failures env perPage page k (wrap64 (delay * 2)) w1) =
               after_get env perPage page
                 (after_failures env perPage page (S k) delay w)).
    { intros w1 ->. unfold after_get, after_failures.
      cbn [clock cache_file gets trace attempts slept waited].
      replace (k + S (gets w))%nat with (S k + gets w)%nat by lia.
      f_equal; [lia | now rewrite <- !app_assoc]. }
    destruct (http_Get env (gets w) perPage page) as [r0|e0] eqn:Hg.
    + simpl in H0. unfold StatusTooManyRequests in *. rewrite H0. cbn [negb].
      unfold bind at 1, time_Sleep.
      rewrite Hstep by reflexivity. f_equal. now apply Hw.
    + unfold bind at 1, time_Sleep.
      rewrite Hstep by reflexivity. f_equal. now apply Hw.
Qed.

End Loop.

End ProviderFacts.

Module GetRecordsFacts.
Import Provider ProviderFacts.

Section Facts.

Variable env : Env.
Variable json_Unmarshal : string -> list CryptoRecord -> list CryptoRecord * option error.
Variable json_Marshal : list CryptoRecord -> Res string.
Variables page perPage : Z.

Local Abbreviation fetch := (fetchRecords env json_Unmarshal json_Marshal page perPage).
Local Abbreviation after := (afterRetry env json_Unmarshal json_Marshal).
Local Abbreviation get_records := (GetRecords env json_Unmarshal json_Marshal page perPage).

(** The first iteration assigns both [resp] and [err]: what they held
    before the loop (the error of [os.Stat]) is never looked at. *)
Lemma retry_loop_overwrites n delay resp err resp' err' w :
  retry_loop env perPage page (S n) delay resp err w =
  retry_loop env perPage page (S n) delay resp' err' w.
Proof. reflexivity. Qed.

Lemma fetch_ignores_err coins err w : fetch coins err w = fetch coins None w.
Proof. reflexivity. Qed.

(** What the loop does to the world: it only appends to the trace,
    starting with a request, leaves the cache file alone, and ends with
    the outcome of some request in [resp] and [err]. *)
Lemma retry_loop_effects n :
  forall delay resp err w re w1,
    retry_loop env perPage page (S n) delay resp err w = (re, w1) ->
    (exists t, trace w1 = trace w ++ EvGet perPage page :: t) /\
    cache_file w1 = cache_file w /\
    (gets w < gets w1)%nat /\
    (exists x, re = vars_of x).
Proof.
  induction n as [|n IH]; intros delay resp err w re w1.
  - rewrite retry_loop_step. cbn zeta. cbn [retry_loop]. unfold ret, after_get.
    destruct (http_Get env (gets w) perPage page) as [rsp|e] eqn:Hg;
      [destruct (StatusCode rsp =? StatusTooManyRequests)|];
      intros [= <- <-]; cbn [trace cache_file gets]; repeat split;
      try lia; try (now exists (Ok rsp)); try (now exists (Err e));
      try (rewrite <- app_assoc; now eexists); now eexists.
  - rewrite retry_loop_step. cbn zeta.
    destruct (http_Get env (gets w) perPage page) as [rsp|e] eqn:Hg;
      [destruct (StatusCode rsp =? StatusTooManyRequests)|].
    + intros H. apply IH in H. cbn [trace cache_file gets] in H.
      destruct H as ((t & Ht) & Hc & Hgs & Hx). repeat split; auto; try lia.
      rewrite Ht, <- !app_assoc. now eexists.
    + unfold after_get. intros [= <- <-]. cbn [trace cache_file gets].
      repeat split; try lia; [now eexists | now exists (Ok rsp)].
    + intros H. apply IH in H. cbn [trace cache_file gets] in H.
      destruct H as ((t & Ht) & Hc & Hgs & Hx). repeat split; auto; try lia.
      rewrite Ht, <- !app_assoc. now eexists.
Qed.

(** What follows the loop issues no request and does not sleep. *)
Lemma afterRetry_effects re coins w res w' :
  after re coins w = (res, w') ->
  gets w' = gets w /\ clock w' = clock w /\
  exists t, trace w' = trace w ++ t /\ count_gets t = O /\ sleeps t = [].
Proof.
  unfold afterRetry, bind, logOperation, emit, ret, os_WriteFile.
  destruct re as [[rsp|] [e|]]; try destruct (Body rsp) as [body|e'];
    try destruct (json_Unmarshal body coins) as [c [e''|]];
    try destruct (json_Marshal c) as [data|e3];
    try destruct (write_fault env) as [[e4 f]|];
    intros [= <- <-]; cbn [gets clock trace]; repeat split;
    rewrite <- ?app_assoc; try (eexists; split; [reflexivity|now split]).
  all: exists []; now rewrite app_nil_r.
Qed.

(** A response that was read and decoded is what the call returns. *)
Lemma afterRetry_decoded rsp body coins rs w :
  Body rsp = Ok body ->
  json_Unmarshal body coins = (rs, None) ->
  fst (after (Some rsp, None) coins w) = Some (Ok rs).
Proof.
  intros Hb Hu. unfold afterRetry, bind, logOperation, emit, ret, os_WriteFile.
  rewrite Hb, Hu.
  destruct (json_Marshal rs); [destruct (write_fault env) as [[e f]|]|];
    reflexivity.
Qed.

(** An error left by the loop is what the call returns. *)
Lemma afterRetry_error resp e coins w :
  fst (after (resp, Some e) coins w) = Some (Err e).
Proof. now destruct resp. Qed.


(** The cache-hit path of [GetRecords]. *)
Lemma GetRecords_hit w rs :
  cache_hit json_Unmarshal w rs ->
  get_records w =
  (Some (Ok rs),
   mkWorld (clock w) (cache_file w) (gets w) (trace w ++ [EvLog "Cache Hit" None])).
Proof.
  intros (f & data & Hf & Hage & Hc & Hu).
  unfold GetRecords, bind, os_Stat, time_Since, os_ReadFile,
    logOperation, emit, ret.
  rewrite Hf. apply Z.ltb_lt in Hage. rewrite Hage. cbn iota beta.
  rewrite ?Hf, Hc, Hu. now rewrite <- Hf.
Qed.

(** Every other path of [GetRecords] is the network fetch. *)
Lemma GetRecords_miss w coins :
  cache_miss json_Unmarshal w coins ->
  get_records w = fetch coins None w.
Proof.
  unfold GetRecords, bind, os_Stat, time_Since, os_ReadFile.
  intros [(Hf & ->) | [(f & Hf & Hage & ->) | [(f & e & Hf & Hage & Hc & ->)
                                              | (f & data & e & Hf & Hage & Hc & Hu)]]];
    rewrite Hf.
  - reflexivity.
  - apply Z.ltb_ge in Hage. now rewrite Hage.
  - apply Z.ltb_lt in Hage. now rewrite Hage, Hf, Hc.
  - apply Z.ltb_lt in Hage. now rewrite Hage, Hf, Hc, Hu.
Qed.

(** The two cases are exhaustive. *)
Lemma hit_or_miss w :
  (exists rs, cache_hit json_Unmarshal w rs) \/
  (exists coins, cache_miss json_Unmarshal w coins /\
                 from_json json_Unmarshal coins).
Proof.
  unfold cache_hit, cache_miss.
  destruct (cache_file w) as [f|] eqn:Hf.
  - destruct (Z.lt_ge_cases (sat64 (clock w - ModTime f)) (30 * Second)) as [Hage|Hage].
    + destruct (contents f) as [data|e] eqn:Hc.
      * destruct (json_Unmarshal data []) as [c [e|]] eqn:Hu.
        { right. exists c. split.
          - right; right; right. now exists f, data, e.
          - eapply from_json_dec; [apply from_json_nil | exact Hu]. }
        { left. now exists c, f, data. }
      * right. exists []. split; [|apply from_json_nil].
        right; right; left. now exists f, e.
    + right. exists []. split; [|apply from_json_nil]. right; left. now exists f.
  - right. exists []. split; [now left | apply from_json_nil].
Qed.

(** The fetch path returns: [resp] is not nil when [err] is. *)
Lemma fetch_returns coins err w : fst (fetch coins err w) <> None.
Proof.
  unfold fetchRecords, bind.
  destruct (retry_loop env perPage page 5 Second None err w) as [re w1] eqn:Hl.
  apply retry_loop_effects in Hl. destruct Hl as (_ & _ & _ & x & ->).
  destruct x as [rsp|e]; cbn [vars_of].
  - unfold afterRetry, bind, logOperation, emit, ret, os_WriteFile.
    destruct (Body rsp) as [body|e']; [|discriminate].
    destruct (json_Unmarshal body coins) as [c [e''|]]; [discriminate|].
    destruct (json_Marshal c); [destruct (write_fault env) as [[e f]|]|];
      discriminate.
  - discriminate.
Qed.

(** [GetRecords] always returns: it never dereferences a nil response. *)
Lemma GetRecords_returns w : fst (get_records w) <> None.
Proof.
  destruct (hit_or_miss w) as [(rs & H) | (coins & H & _)].
  - now rewrite (GetRecords_hit _ _ H).
  - rewrite (GetRecords_miss _ _ H). apply fetch_returns.
Qed.

(** The part of C1 that holds: when all five attempts fail and the last
    one failed with an error, that error is what the call returns. *)
Lemma exhausted_on_error_returns_it coins err w e :
  (forall i, (i < 5)%nat -> failed (http_Get env (i + gets w) perPage page) = true) ->
  http_Get env (4 + gets w) perPage page = Err e ->
  fst (fetch coins err w) = Some (Err e).
Proof.
  intros Hf H4. unfold fetchRecords, bind.
  rewrite (retry_loop_exhausted env perPage page 5 Second None err w Hf).
  rewrite H4. apply afterRetry_error.
Qed.

(** C1, at the input where it fails: all five attempts are answered, each
    with HTTP 429.  The loop is exhausted with [err == nil], so the check
    after it lets the call go on with the body of the last 429 response;
    when that body decodes, the call returns its records and no error. *)
Theorem exhausted_on_429_is_not_an_error coins err w rsp body rs :
  (forall i, (i < 5)%nat -> failed (http_Get env (i + gets w) perPage page) = true) ->
  http_Get env (4 + gets w) perPage page = Ok rsp ->
  Body rsp = Ok body ->
  json_Unmarshal body coins = (rs, None) ->
  StatusCode rsp = StatusTooManyRequests /\
  count_gets
    (trace (snd (fetchRecords env json_Unmarshal json_Marshal page perPage
                              coins err w)))
  = (count_gets (trace w) + 5)%nat /\
  fst (fetchRecords env json_Unmarshal json_Marshal page perPage coins err w)
  = Some (Ok rs).
Proof.
  intros Hf H4 Hb Hu. split; [|split].
  - specialize (Hf 4%nat ltac:(lia)). rewrite H4 in Hf. now apply Z.eqb_eq.
  - unfold fetchRecords, bind.
    rewrite (retry_loop_exhausted env perPage page 5 Second None err w Hf).
    destruct (after _ coins _) as [res w'] eqn:Ha.
    apply afterRetry_effects in Ha. destruct Ha as (_ & _ & t & Ht & Hg & _).
    cbn [snd]. rewrite Ht. unfold after_failures. cbn [trace].
    rewrite !count_gets_app, count_gets_attempts, Hg. lia.
  - unfold fetchRecords, bind.
    rewrite (retry_loop_exhausted env perPage page 5 Second None err w Hf).
    rewrite H4. now apply (afterRetry_decoded rsp body).
Qed.

(** C2: a snapshot younger than 30 seconds that decodes is returned with
    no request issued (the world only gains the log line); when the
    snapshot is absent, at least 30 seconds old, unreadable or does not
    decode, the call is the network fetch, which starts with a request
    and does not look at the error of the cache. *)
Theorem cache_short_circuits_fetch w :
  (forall rs, cache_hit json_Unmarshal w rs ->
              GetRecords env json_Unmarshal json_Marshal page perPage w =
              (Some (Ok rs),
               mkWorld (clock w) (cache_file w) (gets w)
                       (trace w ++ [EvLog "Cache Hit" None])) /\
              count_gets
                (trace (snd (GetRecords env json_Unmarshal json_Marshal
                                        page perPage w)))
              = count_gets (trace w)) /\
  (forall coins,
      cache_miss json_Unmarshal w coins ->
      GetRecords env json_Unmarshal json_Marshal page perPage w =
      fetchRecords env json_Unmarshal json_Marshal page perPage coins None w /\
      (forall err,
          fetchRecords env json_Unmarshal json_Marshal page perPage coins err w =
          fetchRecords env json_Unmarshal json_Marshal page perPage coins None w) /\
      (exists t,
          trace (snd (GetRecords env json_Unmarshal json_Marshal page perPage w)) =
          trace w ++ EvGet perPage page :: t) /\
      (gets w <
       gets (snd (GetRecords env json_Unmarshal json_Marshal page perPage w)))%nat).
Proof.
  split.
  - intros rs H. rewrite (GetRecords_hit _ _ H). split; [reflexivity|].
    cbn [snd trace]. rewrite count_gets_app. cbn. lia.
  - intros coins H. rewrite (GetRecords_miss _ _ H).
    split; [reflexivity|]. split; [intros err; apply fetch_ignores_err|].
    unfold fetchRecords, bind.
    destruct (retry_loop env perPage page 5 Second None None w) as [re w1] eqn:Hl.
    apply retry_loop_effects in Hl. destruct Hl as ((t & Ht) & _ & Hg & _).
    destruct (after re coins w1) as [res w'] eqn:Ha.
    apply afterRetry_effects in Ha. destruct Ha as (Hg' & _ & t' & Ht' & _).
    cbn [snd]. split; [|lia].
    exists (t ++ t'). rewrite Ht', Ht, <- app_assoc. reflexivity.
Qed.

(** C3: four HTTP 429 answers and then one that is not: the loop makes
    exactly five requests, sleeps 1, 2, 4 and 8 seconds (after each of
    the four 429s, not after the fifth request), and the call goes on
    with the fifth response. *)
Theorem retry_four_429_then_success coins err w rsp :
  (forall i, (i < 4)%nat ->
             exists r, http_Get env (i + gets w) perPage page = Ok r /\
                       StatusCode r = StatusTooManyRequests) ->
  http_Get env (4 + gets w) perPage page = Ok rsp ->
  StatusCode rsp <> StatusTooManyRequests ->
  let looped := retry_loop env perPage page 5 Second None err w in
  let w' := snd (fetchRecords env json_Unmarshal json_Marshal page perPage coins err w) in
  fst looped = (Some rsp, None) /\
  trace (snd looped) =
    trace w ++ [EvGet perPage page; EvSleep (1 * Second);
                EvGet perPage page; EvSleep (2 * Second);
                EvGet perPage page; EvSleep (4 * Second);
                EvGet perPage page; EvSleep (8 * Second);
                EvGet perPage page] /\
  fetchRecords env json_Unmarshal json_Marshal page perPage coins err w =
    afterRetry env json_Unmarshal json_Marshal (Some rsp, None) coins (snd looped) /\
  count_gets (trace w') = (count_gets (trace w) + 5)%nat /\
  sleeps (trace w') =
    sleeps (trace w) ++ [1 * Second; 2 * Second; 4 * Second; 8 * Second] /\
  total_sleep (trace w') = total_sleep (trace w) + (1 + 2 + 4 + 8) * Second.
Proof.
  intros H429 H4 Hs looped w'.
  assert (Hf : forall i, (i < 4)%nat ->
                         failed (http_Get env (i + gets w) perPage page) = true).
  { intros i Hi. destruct (H429 i Hi) as (r & -> & Hr). now apply Z.eqb_eq. }
  assert (Hl : looped =
               ((Some rsp, None),
                after_get env perPage page
                  (after_failures env perPage page 4 Second w))).
  { exact (retry_loop_success env perPage page 4 0 Second None err w rsp Hf H4 Hs). }
  assert (Hfetch : fetch coins err w = after (Some rsp, None) coins (snd looped)).
  { unfold fetchRecords, bind. fold looped. now rewrite Hl. }
  assert (Ht : trace (snd looped) =
               trace w ++ [EvGet perPage page; EvSleep (1 * Second);
                           EvGet perPage page; EvSleep (2 * Second);
                           EvGet perPage page; EvSleep (4 * Second);
                           EvGet perPage page; EvSleep (8 * Second);
                           EvGet perPage page]).
  { rewrite Hl. cbn [snd after_get after_failures trace].
    rewrite <- app_assoc. reflexivity. }
  split; [now rewrite Hl|]. split; [exact Ht|]. split; [exact Hfetch|].
  subst w'. rewrite Hfetch.
  destruct (after (Some rsp, None) coins (snd looped)) as [res w2] eqn:Ha.
  apply afterRetry_effects in Ha. destruct Ha as (_ & _ & t & Ht2 & Hg & Hsl).
  cbn [snd]. rewrite Ht2, Ht.
  rewrite !count_gets_app, !sleeps_app, !total_sleep_app, Hg, Hsl.
  unfold total_sleep at 3. rewrite Hsl, app_nil_r.
  repeat split; cbn; lia.
Qed.

End Facts.


End GetRecordsFacts.

(** ** The provider on concrete inputs *)

Module ProviderExamples.
Import Provider ProviderFacts GetRecordsFacts Sample.

(** Five answers of HTTP 429 with the body ["[x"]: the call returns the
    record decoded from the last of them. *)
Lemma exhausted_on_429_witness :
  (forall i, (i < 5)%nat ->
             failed (http_Get env_always_429 (i + gets world_cold) 50 1) = true) /\
  StatusCode (mkResponse 429 (Ok "[x")) = StatusTooManyRequests /\
  count_gets (trace (snd (fetchRecords env_always_429 sample_Unmarshal sample_Marshal
                                       1 50 [] None world_cold))) = 5%nat /\
  fst (fetchRecords env_always_429 sample_Unmarshal sample_Marshal
                    1 50 [] None world_cold) = Some (Ok [record_of_byte "x"]).
Proof.
  split; [intros i _; reflexivity|].
  apply (exhausted_on_429_is_not_an_error
           env_always_429 sample_Unmarshal sample_Marshal 1 50
           [] None world_cold (mkResponse 429 (Ok "[x")) "[x" [record_of_byte "x"]);
    reflexivity.
Defined.

(** With no connection, the error of the fifth attempt is returned. *)
Example offline_returns_the_error :
  fst (GetRecords env_offline sample_Unmarshal sample_Marshal 1 50 world_cold)
  = Some (Err "dial tcp: connection refused").
Proof. reflexivity. Qed.

(** A fresh cache file is returned as it is; a stale one is refetched. *)
Lemma cache_short_circuits_fetch_witness :
  (GetRecords env_online sample_Unmarshal sample_Marshal 1 50 world_fresh =
   (Some (Ok [record_of_byte "c"; record_of_byte "d"]),
    mkWorld (clock world_fresh) (cache_file world_fresh) (gets world_fresh)
            (trace world_fresh ++ [EvLog "Cache Hit" None]))) /\
  (GetRecords env_online sample_Unmarshal sample_Marshal 1 50 world_stale =
   fetchRecords env_online sample_Unmarshal sample_Marshal 1 50 [] None world_stale).
Proof.
  split.
  - apply (proj1 (cache_short_circuits_fetch
                    env_online sample_Unmarshal sample_Marshal 1 50 world_fresh)).
    exists (mkFile (95 * Second) (Ok "[cd")), "[cd".
    repeat split; reflexivity.
  - apply (proj2 (cache_short_circuits_fetch
                    env_online sample_Unmarshal sample_Marshal 1 50 world_stale)).
    right; left. exists (mkFile (95 * Second) (Ok "[cd")).
    repeat split; try reflexivity. vm_compute. discriminate.
Defined.

(** Four HTTP 429 answers, then the page: five requests, 15 seconds of
    sleep, and the records of the fifth response. *)
Lemma retry_four_429_then_success_witness :
  let w' := snd (fetchRecords env_429_then_ok sample_Unmarshal sample_Marshal
                              1 50 [] None world_cold) in
  count_gets (trace w') = 5%nat /\
  sleeps (trace w') = [1 * Second; 2 * Second; 4 * Second; 8 * Second] /\
  total_sleep (trace w') = 15 * Second /\
  fst (fetchRecords env_429_then_ok sample_Unmarshal sample_Marshal
                    1 50 [] None world_cold)
  = Some (Ok [record_of_byte "a"; record_of_byte "b"]).
Proof.
  assert (H429 : forall i, (i < 4)%nat ->
                 exists r, http_Get env_429_then_ok (i + gets world_cold) 50 1 = Ok r /\
                           StatusCode r = StatusTooManyRequests).
  { intros i Hi. exists rate_limited. split; [|reflexivity].
    do 4 (destruct i as [|i]; [reflexivity|]). lia. }
  assert (Hs : StatusCode (ok_response "[ab") <> StatusTooManyRequests)
    by discriminate.
  destruct (retry_four_429_then_success
              env_429_then_ok sample_Unmarshal sample_Marshal 1 50
              [] None world_cold (ok_response "[ab") H429 eq_refl Hs)
    as (_ & _ & _ & Hg & Hsl & Ht).
  intros w'. split; [exact Hg|]. split; [exact Hsl|]. split; [exact Ht|].
  reflexivity.
Defined.



End ProviderExamples.

(** ** The insertion sort of [sort.Slice] meets what is relied on *)

Module SortFacts.
Import View.

Section Insertion.

Context {A : Type}.
Variable less : A -> A -> option bool.

Lemma sift_permutes x prefix p :
  sift less x prefix = Some p -> Permutation (x :: prefix) p.
Proof.
  revert p. induction prefix as [|y prefix IH]; intros p; cbn [sift].
  - now intros [= <-].
  - destruct (less x y) as [[|]|]; [|now intros [= <-]|discriminate].
    destruct (sift less x prefix) as [q|]; [|discriminate].
    intros [= <-]. rewrite perm_swap. now apply perm_skip, IH.
Qed.

Lemma insertion_loop_permutes rest :
  forall prefix out,
    insertion_loop less prefix rest = Some out ->
    Permutation (rev prefix ++ rest) out.
Proof.
  induction rest as [|x rest IH]; intros prefix out; cbn [insertion_loop].
  - intros [= <-]. now rewrite app_nil_r.
  - destruct (sift less x prefix) as [p|] eqn:Hs; [|discriminate].
    intros H. apply IH in H. apply sift_permutes in Hs.
    rewrite <- H, <- Permutation_middle.
    change (x :: rev prefix ++ rest) with ((x :: rev prefix) ++ rest).
    apply Permutation_app_tail.
    now rewrite <- (Permutation_rev p), <- Hs, <- Permutation_rev.
Qed.

Lemma sift_returns x prefix :
  (forall y, In y prefix -> less x y <> None) -> sift less x prefix <> None.
Proof.
  induction prefix as [|y prefix IH]; intros H; cbn [sift]; [discriminate|].
  destruct (less x y) as [[|]|] eqn:Hxy.
  - destruct (sift less x prefix) eqn:Hs; [discriminate|].
    exfalso. apply IH; [|reflexivity]. intros z Hz. apply H. now right.
  - discriminate.
  - exfalso. apply (H y); [now left | exact Hxy].
Qed.

Lemma insertion_loop_returns rest :
  forall prefix,
    (forall a b, In a (prefix ++ rest) -> In b (prefix ++ rest) -> less a b <> None) ->
    insertion_loop less prefix rest <> None.
Proof.
  induction rest as [|x rest IH]; intros prefix H; cbn [insertion_loop];
    [discriminate|].
  destruct (sift less x prefix) as [p|] eqn:Hs.
  - apply IH. intros a b Ha Hb.
    apply sift_permutes in Hs.
    assert (Hin : forall c, In c (p ++ rest) -> In c (prefix ++ x :: rest)).
    { intros c Hc. apply in_app_or in Hc. apply in_or_app.
      destruct Hc as [Hc|Hc]; [|right; now right].
      apply (Permutation_in _ (Permutation_sym Hs)) in Hc.
      destruct Hc as [<-|Hc]; [right; now left | now left]. }
    apply H; now apply Hin.
  - exfalso. apply (sift_returns x prefix); [|exact Hs].
    intros y Hy. apply H; apply in_or_app; [right; now left | now left].
Qed.

Variable dom : A -> Prop.
Hypothesis less_total : forall a b, dom a -> dom b -> less a b <> None.
Hypothesis less_irrefl : forall a, dom a -> less a a = Some false.
Hypothesis less_trans :
  forall a b c, dom a -> dom b -> dom c ->
                less a b = Some true -> less b c = Some true -> less a c = Some true.
Hypothesis less_negtrans :
  forall a b c, dom a -> dom b -> dom c ->
                less a b = Some false -> less b c = Some false -> less a c = Some false.

Lemma less_asym a b : dom a -> dom b -> less a b = Some true -> less b a = Some false.
Proof.
  intros Ha Hb Hab. destruct (less b a) as [[|]|] eqn:Hba.
  - pose proof (less_trans a b a Ha Hb Ha Hab Hba) as H.
    rewrite (less_irrefl a Ha) in H. discriminate.
  - reflexivity.
  - now destruct (less_total b a Hb Ha).
Qed.

Lemma sift_descending x prefix p :
  dom x -> Forall dom prefix -> descending less prefix ->
  sift less x prefix = Some p -> descending less p.
Proof.
  intros Hx. revert p.
  induction prefix as [|y prefix IH]; intros p Hd Hsorted; cbn [sift].
  - intros [= <-]. repeat constructor.
  - inversion Hd as [|? ? Hy Hd']; subst.
    apply StronglySorted_inv in Hsorted. destruct Hsorted as [Hsorted Hall].
    destruct (less x y) as [[|]|] eqn:Hxy; [|intros [= <-]|discriminate].
    + destruct (sift less x prefix) as [q|] eqn:Hs; [|discriminate].
      intros [= <-]. constructor; [now apply IH|].
      apply sift_permutes in Hs.
      apply Forall_forall. intros z Hz.
      apply (Permutation_in _ (Permutation_sym Hs)) in Hz.
      destruct Hz as [<-|Hz]; [now apply less_asym|].
      rewrite Forall_forall in Hall. now apply Hall.
    + constructor; [now constructor|].
      constructor; [exact Hxy|].
      rewrite Forall_forall in Hall, Hd' |- *. intros z Hz.
      apply (less_negtrans x y z); auto.
Qed.

Lemma descending_rev l :
  descending less l -> StronglySorted (fun a b => less b a = Some false) (rev l).
Proof.
  induction 1 as [|a l Hl IH Ha]; cbn [rev]; [constructor|].
  set (R := fun a b => less b a = Some false) in *.
  assert (Happ : forall l1 l2,
             StronglySorted R l1 -> StronglySorted R l2 ->
             (forall u v, In u l1 -> In v l2 -> R u v) ->
             StronglySorted R (l1 ++ l2)).
  { induction l1 as [|u l1 IH1]; intros l2 H1 H2 H12; [exact H2|].
    apply StronglySorted_inv in H1. destruct H1 as [H1 Hu].
    cbn [app]. constructor.
    - apply IH1; auto. intros u' v Hu' Hv. apply H12; [now right | exact Hv].
    - apply Forall_app. split; [exact Hu|].
      apply Forall_forall. intros v Hv. apply H12; [now left | exact Hv]. }
  apply Happ; [exact IH | repeat constructor |].
  intros u v Hu [<-|[]]. rewrite Forall_forall in Ha. apply Ha.
  now apply in_rev.
Qed.

Lemma insertion_loop_orders rest :
  forall prefix out,
    Forall dom prefix -> Forall dom rest -> descending less prefix ->
    insertion_loop less prefix rest = Some out ->
    StronglySorted (fun a b => less b a = Some false) out.
Proof.
  induction rest as [|x rest IH]; intros prefix out Hp Hr Hd; cbn [insertion_loop].
  - intros [= <-]. now apply descending_rev.
  - inversion Hr as [|? ? Hx Hr']; subst.
    destruct (sift less x prefix) as [p|] eqn:Hs; [|discriminate].
    apply IH; auto.
    + apply sift_permutes in Hs.
      apply Forall_forall. intros z Hz.
      apply (Permutation_in _ (Permutation_sym Hs)) in Hz.
      destruct Hz as [<-|Hz]; [exact Hx|].
      rewrite Forall_forall in Hp. now apply Hp.
    + now apply (sift_descending x prefix).
Qed.

Lemma sift_nonempty x prefix p : sift less x prefix = Some p -> p <> [].
Proof.
  destruct prefix as [|y prefix]; cbn [sift]; [now intros [= <-]|].
  destruct (less x y) as [[|]|]; [|now intros [= <-]|discriminate].
  destruct (sift less x prefix); [now intros [= <-] | discriminate].
Qed.

(** An element on which [less] panics cannot be sifted into a prefix that
    has an element. *)
Lemma insertion_loop_compares rest :
  forall prefix x,
    prefix <> [] -> In x rest -> (forall y, less x y = None) ->
    insertion_loop less prefix rest = None.
Proof.
  induction rest as [|z rest IH]; intros prefix x Hp Hin Hx; [destruct Hin|].
  cbn [insertion_loop].
  destruct (sift less z prefix) as [p|] eqn:Hs; [|reflexivity].
  destruct Hin as [->|Hin].
  - destruct prefix as [|y prefix]; [now contradiction Hp|].
    cbn [sift] in Hs. now rewrite Hx in Hs.
  - apply (IH p x); auto. now apply sift_nonempty in Hs.
Qed.

End Insertion.

Lemma insertionSort_permutes : sort_permutes insertionSort_func.
Proof.
  intros less l out H. now apply (insertion_loop_permutes less l []).
Qed.

Lemma insertionSort_returns : sort_returns insertionSort_func.
Proof.
  intros less l H. apply insertion_loop_returns. intros a b Ha Hb. now apply H.
Qed.

Lemma insertionSort_orders : sort_orders insertionSort_func.
Proof.
  intros less l out (Ht & Hi & Htr & Hn) H.
  apply (insertion_loop_orders less (fun a => In a l)) with (rest := l) (prefix := []);
    auto.
  - now apply Forall_forall.
  - constructor.
Qed.

Lemma insertionSort_short : sort_short insertionSort_func.
Proof.
  intros less [|x [|y l]] H; [reflexivity | reflexivity | cbn in H; lia].
Qed.

Lemma insertionSort_compares_all : sort_compares_all insertionSort_func.
Proof.
  intros less l x Hlen Hin Hx.
  destruct l as [|a [|b l]]; [cbn in Hlen; lia | cbn in Hlen; lia |].
  unfold insertionSort_func. cbn [insertion_loop sift].
  destruct Hin as [->|Hin].
  - cbn [insertion_loop sift]. now rewrite (proj2 (Hx b)).
  - apply (insertion_loop_compares less (b :: l) [a] x); auto.
    + discriminate.
    + intros y. apply Hx.
Qed.

End SortFacts.

(** ** The view state *)

Module ViewFacts.
Import View.

Lemma is_sort_key_cases key :
  is_sort_key key = true ->
  In key ["r"; "n"; "p"; "1"; "2"; "7"; "m"; "a"; "t"].
Proof.
  unfold is_sort_key. intros H. apply existsb_exists in H.
  destruct H as (k & Hin & Hk). apply String.eqb_eq in Hk. now subst k.
Qed.

(** [updateTable] only rebuilds the table. *)
Lemma updateTable_fields m m' :
  updateTable m = Some m' -> m' = set_table m (table m').
Proof.
  unfold updateTable.
  destruct (slice (records m) _ _); [|discriminate]. now intros [= <-].
Qed.

Section Facts.

Variable unicode_Map_ToLower : string -> string.
Variable sort_Slice :
  (CryptoRecord -> CryptoRecord -> option bool) ->
  list CryptoRecord -> option (list CryptoRecord).

Local Abbreviation lower := (ToLower unicode_Map_ToLower).
Local Abbreviation name_less := (less_name unicode_Map_ToLower).
Local Abbreviation select := (comparator unicode_Map_ToLower).
Local Abbreviation sort_records := (sortRecords unicode_Map_ToLower sort_Slice).
Local Abbreviation update := (Update unicode_Map_ToLower sort_Slice).

(** [sortRecords] only reorders the records. *)
Lemma sortRecords_fields m m' :
  sort_records m = Some m' -> m' = set_records m (records m').
Proof.
  unfold sortRecords. destruct (select (sortBy m) (sortAsc m)) as [less|].
  - destruct (sort_Slice less (records m)); [|discriminate]. now intros [= <-].
  - intros [= <-]. now destruct m.
Qed.

(** A sort key is handled by toggling, sorting and rebuilding the table. *)
Lemma Update_sort_key key m :
  is_sort_key key = true ->
  update (KeyMsg key) m =
  match sort_records (toggleSort key m) with
  | None => None
  | Some m2 => updateTable m2
  end.
Proof.
  intros H. unfold Update. rewrite H.
  apply is_sort_key_cases in H. cbn [In] in H.
  repeat (destruct H as [<-|H]; [reflexivity|]). destruct H.
Qed.

Lemma Update_sort_key_flags key m m' :
  is_sort_key key = true ->
  update (KeyMsg key) m = Some m' ->
  sortBy m' = sortBy (toggleSort key m) /\
  sortAsc m' = sortAsc (toggleSort key m) /\
  page m' = page m /\ perPage m' = perPage m.
Proof.
  intros Hk. rewrite (Update_sort_key key m Hk).
  destruct (sort_records (toggleSort key m)) as [m2|] eqn:Hs; [|discriminate].
  intros Hu. apply sortRecords_fields in Hs. apply updateTable_fields in Hu.
  rewrite Hu, Hs. cbn. unfold toggleSort.
  now destruct (sortBy m =? key)%string.
Qed.

(** C4: toggling with the active key flips the direction and keeps the key;
    toggling with another key makes it the active one, ascending, whatever
    the direction was; [Update] returns the model with these flags, so that
    two presses of the active key give the direction back. *)
Theorem toggle_sort_key m key :
  (sortBy m = key ->
   sortBy (toggleSort key m) = key /\
   sortAsc (toggleSort key m) = negb (sortAsc m)) /\
  (sortBy m <> key ->
   sortBy (toggleSort key m) = key /\ sortAsc (toggleSort key m) = true) /\
  (is_sort_key key = true ->
   forall m', Update unicode_Map_ToLower sort_Slice (KeyMsg key) m = Some m' ->
              sortBy m' = sortBy (toggleSort key m) /\
              sortAsc m' = sortAsc (toggleSort key m)) /\
  (is_sort_key key = true -> sortBy m = key ->
   forall m' m'', Update unicode_Map_ToLower sort_Slice (KeyMsg key) m = Some m' ->
                  Update unicode_Map_ToLower sort_Slice (KeyMsg key) m' = Some m'' ->
                  sortBy m'' = key /\ sortAsc m'' = sortAsc m).
Proof.
  assert (Hsame : sortBy m = key ->
                  sortBy (toggleSort key m) = key /\
                  sortAsc (toggleSort key m) = negb (sortAsc m)).
  { intros H. unfold toggleSort. apply String.eqb_eq in H. rewrite H.
    apply String.eqb_eq in H. now split. }
  split; [exact Hsame|]. split; [|split].
  - intros H. unfold toggleSort. apply String.eqb_neq in H. now rewrite H.
  - intros Hk m' Hu.
    destruct (Update_sort_key_flags key m m' Hk Hu) as (H1 & H2 & _). now split.
  - intros Hk Hact m' m'' Hu Hu'.
    destruct (Update_sort_key_flags key m m' Hk Hu) as (H1 & H2 & _).
    destruct (Update_sort_key_flags key m' m'' Hk Hu') as (H3 & H4 & _).
    destruct (Hsame Hact) as (Hb & Ha). rewrite Hb in H1. rewrite Ha in H2.
    unfold toggleSort in H3, H4. apply String.eqb_eq in H1. rewrite H1 in H3, H4.
    apply String.eqb_eq in H1. cbn in H3, H4. rewrite H3, H4, H2.
    split; [exact H1 | apply negb_involutive].
Qed.

(** The lower-cased form of an ASCII name starts with the lower-cased first
    byte of the name. *)
Lemma ToLower_ascii_head c s :
  isASCII (String c s) = true ->
  index0 (lower (String c s)) = Some (lower_byte c).
Proof.
  intros H. unfold ToLower. rewrite H.
  destruct (hasUpper (String c s)) eqn:Hu; [reflexivity|].
  cbn [hasUpper] in Hu. apply orb_false_elim in Hu. destruct Hu as [Hc _].
  cbn [index0]. unfold lower_byte. now rewrite Hc.
Qed.

(** C5, as amended: under the name key two records are ordered by the first
    byte of their lower-cased names alone, [<] when ascending and [>] when
    descending; what follows the first byte has no influence.  The index
    expression [s[0]] yields a byte, not a character: names whose
    lower-cased forms share the first byte are not ordered, whatever
    characters they start with. *)
Theorem name_order_first_byte asc a b x xs y ys :
  ToLower unicode_Map_ToLower (Name a) = String x xs ->
  ToLower unicode_Map_ToLower (Name b) = String y ys ->
  comparator unicode_Map_ToLower "n" asc = Some (less_name unicode_Map_ToLower asc) /\
  less_name unicode_Map_ToLower asc a b =
    Some (if asc then byte_val x <? byte_val y else byte_val y <? byte_val x) /\
  (forall a' b' xs' ys',
      ToLower unicode_Map_ToLower (Name a') = String x xs' ->
      ToLower unicode_Map_ToLower (Name b') = String y ys' ->
      less_name unicode_Map_ToLower asc a' b' = less_name unicode_Map_ToLower asc a b) /\
  (x = y ->
   less_name unicode_Map_ToLower asc a b = Some false /\
   less_name unicode_Map_ToLower asc b a = Some false).
Proof.
  intros Ha Hb. split; [reflexivity|].
  assert (H : forall a0 b0 xs0 ys0,
             lower (Name a0) = String x xs0 -> lower (Name b0) = String y ys0 ->
             name_less asc a0 b0 =
             Some (if asc then byte_val x <? byte_val y else byte_val y <? byte_val x)).
  { intros a0 b0 xs0 ys0 H1 H2. unfold less_name. now rewrite H1, H2. }
  split; [now apply (H a b xs ys)|]. split.
  - intros a' b' xs' ys' Ha' Hb'.
    now rewrite (H a b xs ys), (H a' b' xs' ys').
  - intros <-. unfold less_name. rewrite Ha, Hb. cbn [index0].
    rewrite Z.ltb_irrefl. now destruct asc.
Qed.

(** For names in ASCII this reads on the names themselves: the first
    letters decide, case apart. *)
Lemma name_order_ascii asc a b c s d t :
  Name a = String c s -> Name b = String d t ->
  isASCII (Name a) = true -> isASCII (Name b) = true ->
  name_less asc a b =
  Some (if asc then byte_val (lower_byte c) <? byte_val (lower_byte d)
        else byte_val (lower_byte d) <? byte_val (lower_byte c)).
Proof.
  intros Ha Hb Hia Hib. unfold less_name.
  rewrite Ha, Hb in *. now rewrite !ToLower_ascii_head.
Qed.

(** *** Pagination *)

Lemma map_snd_range_from {A} (l : list A) i : map snd (range_from i l) = l.
Proof.
  revert i. induction l as [|x l IH]; intros i; [reflexivity|].
  cbn. now rewrite IH.
Qed.

(** The records [updateTable] puts in the table. *)
Lemma updateTable_window m :
  option_map (fun m' => map snd (rows (table m'))) (updateTable m) =
  slice (records m) (wrap64 ((page m - 1) * perPage m))
        (Z.min (wrap64 (page m * perPage m)) (len (records m))).
Proof.
  unfold updateTable.
  rewrite wrap64_window_end, wrap64_window_start.
  replace (if wrap64 (page m * perPage m) >? len (records m)
           then len (records m) else wrap64 (page m * perPage m))
    with (Z.min (wrap64 (page m * perPage m)) (len (records m))).
  - destruct (slice _ _ _) as [window|]; [|reflexivity].
    cbn. now rewrite map_snd_range_from.
  - destruct (Z.gtb_spec (wrap64 (page m * perPage m)) (len (records m))); lia.
Qed.

Lemma slice_bounds {A} (l : list A) lo hi :
  0 <= lo <= hi -> hi <= len l ->
  slice l lo hi = Some (firstn (Z.to_nat (hi - lo)) (skipn (Z.to_nat lo) l)).
Proof.
  intros H1 H2. unfold slice.
  replace ((0 <=? lo) && (lo <=? hi) && (hi <=? len l)) with true; [reflexivity|].
  symmetry. rewrite !andb_true_iff, !Z.leb_le. lia.
Qed.

Lemma slice_panics {A} (l : list A) lo hi :
  slice l lo hi = None <-> lo < 0 \/ hi < lo \/ len l < hi.
Proof.
  unfold slice.
  destruct ((0 <=? lo) && (lo <=? hi) && (hi <=? len l)) eqn:H.
  - rewrite !andb_true_iff, !Z.leb_le in H. split; [discriminate | lia].
  - split; [intros _ | reflexivity].
    rewrite !andb_false_iff, !Z.leb_gt in H. lia.
Qed.

(** C7: the right key moves to the next page exactly when
    [page * perPage < len(records)] and is otherwise without effect; the
    left key moves back exactly when [page > 1] and is otherwise without
    effect; the table shows
    [records[(page-1)*perPage : min(page*perPage, len(records))]].  With
    120 records and 50 per page, page 3 shows the 20 records from index 100
    on, the right key does nothing there and the left key does nothing on
    page 1. *)
Theorem pagination m :
  Update unicode_Map_ToLower sort_Slice (KeyMsg "right") m =
    (if wrap64 (page m * perPage m) <? len (records m)
     then updateTable (set_page m (wrap64 (page m + 1)))
     else Some m) /\
  Update unicode_Map_ToLower sort_Slice (KeyMsg "left") m =
    (if page m >? 1
     then updateTable (set_page m (wrap64 (page m - 1)))
     else Some m) /\
  (forall m', updateTable m = Some m' ->
              page m' = page m /\ perPage m' = perPage m /\
              records m' = records m) /\
  option_map (fun m' => map snd (rows (table m'))) (updateTable m) =
    slice (records m) (wrap64 ((page m - 1) * perPage m))
          (Z.min (wrap64 (page m * perPage m)) (len (records m))) /\
  (List.length (records m) = 120%nat -> perPage m = 50 ->
   (page m = 3 ->
    option_map (fun m' => map snd (rows (table m'))) (updateTable m) =
      Some (skipn 100 (records m)) /\
    List.length (skipn 100 (records m)) = 20%nat /\
    slice (records m) 100 120 = Some (skipn 100 (records m)) /\
    Update unicode_Map_ToLower sort_Slice (KeyMsg "right") m = Some m) /\
   (page m = 2 ->
    exists m', Update unicode_Map_ToLower sort_Slice (KeyMsg "right") m = Some m' /\
               page m' = 3 /\
               map snd (rows (table m')) = skipn 100 (records m)) /\
   (page m = 1 -> Update unicode_Map_ToLower sort_Slice (KeyMsg "left") m = Some m)).
Proof.
  split; [reflexivity|]. split; [reflexivity|]. split; [|split].
  - intros m' H. apply updateTable_fields in H. now rewrite H.
  - apply updateTable_window.
  - intros Hlen Hpp.
    assert (Hl : len (records m) = 120) by (unfold len; now rewrite Hlen).
    assert (Hw : forall m0, records m0 = records m -> perPage m0 = 50 -> page m0 = 3 ->
                 option_map (fun m' => map snd (rows (table m'))) (updateTable m0) =
                 Some (skipn 100 (records m))).
    { intros m0 Hr H50 H3. rewrite updateTable_window, Hr, H50, H3, Hl.
      change (wrap64 ((3 - 1) * 50)) with 100.
      change (Z.min (wrap64 (3 * 50)) 120) with 120.
      rewrite slice_bounds by lia.
      change (Z.to_nat (120 - 100)) with 20%nat.
      change (Z.to_nat 100) with 100%nat.
      f_equal. apply firstn_all2. rewrite length_skipn. lia. }
    split; [|split].
    + intros H3. split; [now apply Hw|].
      split; [rewrite length_skipn; lia|]. split.
      * rewrite slice_bounds by lia.
        change (Z.to_nat (120 - 100)) with 20%nat.
        change (Z.to_nat 100) with 100%nat.
        f_equal. apply firstn_all2. rewrite length_skipn. lia.
      * unfold Update. cbn [String.eqb Ascii.eqb Bool.eqb].
        now rewrite Hpp, H3, Hl.
    + intros H2. unfold Update. cbn [String.eqb Ascii.eqb Bool.eqb].
      rewrite Hpp, H2, Hl. cbn [Z.ltb Z.mul Z.compare wrap64].
      change (wrap64 (2 * 50) <? 120) with true. cbn iota.
      specialize (Hw (set_page m (wrap64 (2 + 1))) eq_refl Hpp eq_refl).
      destruct (updateTable (set_page m (wrap64 (2 + 1)))) as [m'|] eqn:Hu;
        [|discriminate].
      exists m'. split; [reflexivity|]. split.
      * apply updateTable_fields in Hu. now rewrite Hu.
      * now injection Hw.
    + intros H1. unfold Update. cbn [String.eqb Ascii.eqb Bool.eqb].
      now rewrite H1.
Qed.

(** *** The window stays inside the records *)

Lemma allocatable_room rs : allocatable rs -> len rs + 50 <= max_int.
Proof.
  unfold allocatable, sizeof_CryptoRecord, max_int, len.
  pose proof (Nat2Z.is_nonneg (List.length rs)). lia.
Qed.

Lemma window_ok_updateTable rs m :
  allocatable rs -> window_ok rs m ->
  exists m', updateTable m = Some m' /\ window_ok rs m'.
Proof.
  intros Hrs (Hpp & Hp & Hstart & Hlen).
  pose proof (allocatable_room rs Hrs) as Hroom.
  pose proof (updateTable_window m) as Hw.
  rewrite Hpp in Hw.
  rewrite (wrap64_id ((page m - 1) * 50)) in Hw
    by (unfold in_int, min_int, max_int in *; lia).
  rewrite (wrap64_id (page m * 50)) in Hw
    by (unfold in_int, min_int, max_int in *; lia).
  rewrite slice_bounds in Hw by lia.
  destruct (updateTable m) as [m'|] eqn:Hu; [|discriminate].
  exists m'. split; [reflexivity|].
  apply updateTable_fields in Hu. rewrite Hu. now cbn.
Qed.

Hypothesis sort_is_permutation : sort_permutes sort_Slice.

Lemma window_ok_Update rs msg m m' :
  allocatable rs -> window_ok rs m -> update msg m = Some m' -> window_ok rs m'.
Proof.
  intros Hrs Hok. pose proof Hok as (Hpp & Hp & Hstart & Hlen).
  pose proof (allocatable_room rs Hrs) as Hroom.
  destruct msg as [key| |w h]; cbn [Update]; try (now intros [= <-]).
  destruct (key =? "enter")%string.
  { destruct (rows (table m)); [discriminate | now intros [= <-]]. }
  destruct (key =? "right")%string.
  { rewrite Hpp, (wrap64_id (page m * 50))
      by (unfold in_int, min_int, max_int in *; lia).
    destruct (Z.ltb_spec (page m * 50) (len (records m))) as [Hlt|Hge];
      [|now intros [= <-]].
    rewrite (wrap64_id (page m + 1))
      by (unfold in_int, min_int, max_int in *; lia).
    intros Hu. apply updateTable_fields in Hu. rewrite Hu.
    unfold window_ok. cbn. repeat split; auto; lia. }
  destruct (key =? "left")%string.
  { destruct (Z.gtb_spec (page m) 1) as [Hgt|Hle]; [|now intros [= <-]].
    rewrite (wrap64_id (page m - 1))
      by (unfold in_int, min_int, max_int in *; lia).
    intros Hu. apply updateTable_fields in Hu. rewrite Hu.
    unfold window_ok. cbn. repeat split; auto; lia. }
  destruct (is_sort_key key); [|now intros [= <-]].
  destruct (sort_records (toggleSort key m)) as [m2|] eqn:Hs; [|discriminate].
  intros Hu. apply updateTable_fields in Hu. rewrite Hu.
  assert (Hperm : Permutation (records (toggleSort key m)) (records m2)).
  { revert Hs. unfold sortRecords.
    destruct (select _ _) as [less|]; [|now intros [= <-]].
    destruct (sort_Slice less _) as [out|] eqn:Hsort; [|discriminate].
    intros [= <-]. cbn. now apply (sort_is_permutation less). }
  apply sortRecords_fields in Hs. rewrite Hs in *.
  assert (Hrec : records (toggleSort key m) = records m)
    by (unfold toggleSort; now destruct (sortBy m =? key)%string).
  assert (Hpg : page (toggleSort key m) = page m /\ perPage (toggleSort key m) = perPage m)
    by (unfold toggleSort; now destruct (sortBy m =? key)%string).
  destruct Hpg as (Hpg1 & Hpg2).
  rewrite Hrec in Hperm. apply Permutation_length in Hperm.
  unfold window_ok, len in *. cbn in *. rewrite <- Hperm, Hpg1, Hpg2.
  repeat split; auto.
Qed.

Lemma window_ok_run rs msgs :
  forall m m', allocatable rs -> window_ok rs m ->
               run unicode_Map_ToLower sort_Slice msgs m = Some m' ->
               window_ok rs m'.
Proof.
  induction msgs as [|msg msgs IH]; intros m m' Hrs Hok; cbn [run].
  - now intros [= <-].
  - destruct (update msg m) as [m1|] eqn:Hu; [|discriminate].
    apply IH; auto. now apply (window_ok_Update rs msg m).
Qed.

(** C8: in every state reached from the initial one (page 1, 50 per page)
    by page navigation and sorting, [0 <= (page-1)*perPage] and the end of
    the window, [min(page*perPage, len(records))], is between the start and
    [len(records)]; Go's arithmetic does not overflow on them, the slice
    expression of [updateTable] is in bounds and [updateTable] returns. *)
Theorem window_always_in_bounds rs msgs m :
  allocatable rs ->
  forallb nav_or_sort msgs = true ->
  run unicode_Map_ToLower sort_Slice msgs (initial_model rs) = Some m ->
  let start := (page m - 1) * perPage m in
  let stop := Z.min (page m * perPage m) (len (records m)) in
  0 <= start /\ start <= stop /\ stop <= len (records m) /\
  wrap64 (wrap64 (page m - 1) * perPage m) = start /\
  wrap64 (page m * perPage m) = page m * perPage m /\
  slice (records m) start stop =
    Some (firstn (Z.to_nat (stop - start)) (skipn (Z.to_nat start) (records m))) /\
  updateTable m <> None.
Proof.
  intros Hrs _ Hrun.
  assert (Hok : window_ok rs m).
  { apply (window_ok_run rs msgs (initial_model rs) m Hrs); [|exact Hrun].
    unfold window_ok, initial_model, len. cbn.
    pose proof (Nat2Z.is_nonneg (List.length rs)). repeat split; lia. }
  pose proof (allocatable_room rs Hrs) as Hroom.
  destruct (window_ok_updateTable rs m Hrs Hok) as (m' & Hu & _).
  destruct Hok as (Hpp & Hp & Hstart & Hlen).
  cbn zeta. rewrite Hpp.
  repeat split; try lia.
  - rewrite wrap64_window_start. apply wrap64_id.
    unfold in_int, min_int, max_int in *. lia.
  - apply wrap64_id. unfold in_int, min_int, max_int in *. lia.
  - apply slice_bounds; lia.
  - now rewrite Hu.
Qed.

(** *** Rank and market capitalisation *)

Hypothesis sort_does_return : sort_returns sort_Slice.
Hypothesis sort_does_order : sort_orders sort_Slice.

(** Three records in strictly increasing order have one sorted
    arrangement. *)
Lemma sorted_three (less : CryptoRecord -> CryptoRecord -> option bool) x y z l out :
  less x y = Some true -> less y z = Some true -> less x z = Some true ->
  less y x = Some false -> less z y = Some false -> less z x = Some false ->
  Permutation [x; y; z] l -> Permutation l out ->
  StronglySorted (fun a b => less b a = Some false) out ->
  out = [x; y; z].
Proof.
  intros Lxy Lyz Lxz Lyx Lzy Lzx Hl Hout Hs.
  pose proof (perm_trans Hl Hout) as Hp.
  pose proof (Permutation_length Hp) as Hlen.
  destruct out as [|a [|b [|c [|d out]]]]; try discriminate Hlen.
  assert (Hback : forall e, In e [a; b; c] -> In e [x; y; z])
    by (intros e; apply Permutation_in; now symmetry).
  assert (Ha : In a [x; y; z]) by (apply Hback; cbn; auto).
  assert (Hb : In b [x; y; z]) by (apply Hback; cbn; auto).
  assert (Hc : In c [x; y; z]) by (apply Hback; cbn; auto).
  assert (Hx : In x [a; b; c]) by (apply (Permutation_in _ Hp); cbn; auto).
  assert (Hy : In y [a; b; c]) by (apply (Permutation_in _ Hp); cbn; auto).
  assert (Hz : In z [a; b; c]) by (apply (Permutation_in _ Hp); cbn; auto).
  apply StronglySorted_inv in Hs. destruct Hs as [Hs Hfa].
  apply StronglySorted_inv in Hs. destruct Hs as [_ Hfb].
  inversion Hfa as [|? ? Hba Hfa']; subst. inversion Hfa' as [|? ? Hca _]; subst.
  inversion Hfb as [|? ? Hcb _]; subst.
  cbn [In] in Ha, Hb, Hc.
  destruct Ha as [<- | [<- | [<- | [] ]]]; destruct Hb as [<- | [<- | [<- | [] ]]];
    destruct Hc as [<- | [<- | [<- | [] ]]]; try congruence;
    cbn [In] in Hx, Hy, Hz;
    destruct Hx as [Hx | [Hx | [Hx | [] ]]]; destruct Hy as [Hy | [Hy | [Hy | [] ]]];
    destruct Hz as [Hz | [Hz | [Hz | [] ]]]; congruence.
Qed.

(** Both directions of the market-cap comparator order three records of
    capitalisation 1, 3 and 5 strictly. *)
Lemma market_cap_order r1 r3 r5 asc l :
  MarketCap r1 = 1%float -> MarketCap r3 = 3%float -> MarketCap r5 = 5%float ->
  Permutation [r1; r3; r5] l ->
  strict_weak_on (less_float MarketCap asc) l.
Proof.
  intros H1 H3 H5 Hl.
  assert (Hin : forall a, In a l -> a = r1 \/ a = r3 \/ a = r5).
  { intros a Ha. apply (Permutation_in _ (Permutation_sym Hl)) in Ha.
    cbn [In] in Ha. intuition auto. }
  unfold strict_weak_on, total_on.
  split; [discriminate|]. split; [|split].
  - intros a Ha. destruct (Hin a Ha) as [-> | [-> | ->] ]; unfold less_float;
      rewrite ?H1, ?H3, ?H5; now destruct asc.
  - intros a b c Ha Hb Hc.
    destruct (Hin a Ha) as [-> | [-> | ->] ]; destruct (Hin b Hb) as [-> | [-> | ->] ];
      destruct (Hin c Hc) as [-> | [-> | ->] ]; unfold less_float;
      rewrite ?H1, ?H3, ?H5; destruct asc; cbv; congruence.
  - intros a b c Ha Hb Hc.
    destruct (Hin a Ha) as [-> | [-> | ->] ]; destruct (Hin b Hb) as [-> | [-> | ->] ];
      destruct (Hin c Hc) as [-> | [-> | ->] ]; unfold less_float;
      rewrite ?H1, ?H3, ?H5; destruct asc; cbv; congruence.
Qed.

(** C6: the rank key and the market-cap key select the same comparator, on
    [MarketCap], so [sortRecords] gives the same records under either;
    records of capitalisation 5, 1, 3 come out as 1, 3, 5 ascending and as
    5, 3, 1 descending. *)
Theorem rank_is_market_cap :
  (forall asc,
      comparator unicode_Map_ToLower "r" asc = Some (less_float MarketCap asc) /\
      comparator unicode_Map_ToLower "m" asc = Some (less_float MarketCap asc)) /\
  (forall m asc,
      option_map records
        (sortRecords unicode_Map_ToLower sort_Slice (set_sort m "r" asc)) =
      option_map records
        (sortRecords unicode_Map_ToLower sort_Slice (set_sort m "m" asc))) /\
  (forall m key r5 r1 r3,
      key = "r" \/ key = "m" ->
      MarketCap r5 = 5%float -> MarketCap r1 = 1%float -> MarketCap r3 = 3%float ->
      records m = [r5; r1; r3] ->
      option_map records
        (sortRecords unicode_Map_ToLower sort_Slice (set_sort m key true))
      = Some [r1; r3; r5] /\
      option_map records
        (sortRecords unicode_Map_ToLower sort_Slice (set_sort m key false))
      = Some [r5; r3; r1]).
Proof.
  split; [now split|]. split.
  { intros m asc. unfold sortRecords. cbn [set_sort sortBy sortAsc records].
    change (select "r" asc) with (Some (less_float MarketCap asc)).
    change (select "m" asc) with (Some (less_float MarketCap asc)).
    cbn iota beta.
    now destruct (sort_Slice (less_float MarketCap asc) (records m)). }
  intros m key r5 r1 r3 Hkey H5 H1 H3 Hrs.
  assert (Hsel : forall asc, sort_records (set_sort m key asc) =
                             match sort_Slice (less_float MarketCap asc) [r5; r1; r3] with
                             | None => None
                             | Some out => Some (set_records (set_sort m key asc) out)
                             end).
  { intros asc. unfold sortRecords. cbn [set_sort sortBy sortAsc records].
    rewrite Hrs. now destruct Hkey as [-> | ->]. }
  assert (Hup : Permutation [r1; r3; r5] [r5; r1; r3]).
  { symmetry. apply (Permutation_cons_append [r1; r3] r5). }
  rewrite !Hsel. split.
  - destruct (sort_Slice (less_float MarketCap true) [r5; r1; r3]) as [out|] eqn:Hs.
    + cbn. f_equal.
      apply (sorted_three (less_float MarketCap true) r1 r3 r5 [r5; r1; r3]);
        try (unfold less_float; rewrite ?H1, ?H3, ?H5; reflexivity); auto.
      * now apply sort_is_permutation in Hs.
      * apply (sort_does_order _ _ _ (market_cap_order r1 r3 r5 true _ H1 H3 H5 Hup) Hs).
    + exfalso. revert Hs. apply sort_does_return. discriminate.
  - destruct (sort_Slice (less_float MarketCap false) [r5; r1; r3]) as [out|] eqn:Hs.
    + cbn. f_equal.
      apply (sorted_three (less_float MarketCap false) r5 r3 r1 [r5; r1; r3]);
        try (unfold less_float; rewrite ?H1, ?H3, ?H5; reflexivity); auto.
      * apply perm_skip, perm_swap.
      * now apply sort_is_permutation in Hs.
      * apply (sort_does_order _ _ _ (market_cap_order r1 r3 r5 false _ H1 H3 H5 Hup) Hs).
    + exfalso. revert Hs. apply sort_does_return. discriminate.
Qed.

(** *** Sorting by name and empty names *)

Hypothesis sort_leaves_short : sort_short sort_Slice.
Hypothesis sort_does_compare_all : sort_compares_all sort_Slice.
Hypothesis unicode_Map_nonempty :
  forall s, s <> EmptyString -> unicode_Map_ToLower s <> EmptyString.

Lemma ToLower_empty s : lower s = EmptyString <-> s = EmptyString.
Proof.
  split; [|now intros ->].
  destruct s as [|c s]; [reflexivity|]. unfold ToLower.
  destruct (isASCII (String c s)); [destruct (hasUpper (String c s))|];
    try discriminate.
  intros H. now apply unicode_Map_nonempty in H.
Qed.

(** The comparison panics exactly when one of the two names is empty. *)
Lemma less_name_panics asc a b :
  name_less asc a b = None <-> Name a = EmptyString \/ Name b = EmptyString.
Proof.
  unfold less_name.
  destruct (lower (Name a)) as [|x xs] eqn:Ha.
  - apply (proj1 (ToLower_empty _)) in Ha. split; auto.
  - destruct (lower (Name b)) as [|y ys] eqn:Hb.
    + apply (proj1 (ToLower_empty _)) in Hb. split; auto.
    + cbn [index0]. split; [discriminate|].
      intros [H|H]; apply (proj2 (ToLower_empty _)) in H; congruence.
Qed.

(** C10, as amended: the name comparator indexes the lower-cased name at 0
    with no length check, so a comparison panics exactly when one of the
    two names is empty; sorting by name returns when every name is
    non-empty, and panics when there are at least two records and one of
    them has an empty name; one record alone, or none, is never
    compared. *)
Theorem name_sort_needs_names :
  (forall asc a b,
      less_name unicode_Map_ToLower asc a b = None <->
      Name a = EmptyString \/ Name b = EmptyString) /\
  (forall m, sortBy m = "n" ->
             (forall r, In r (records m) -> Name r <> EmptyString) ->
             sortRecords unicode_Map_ToLower sort_Slice m <> None) /\
  (forall m, sortBy m = "n" ->
             (2 <= List.length (records m))%nat ->
             (exists r, In r (records m) /\ Name r = EmptyString) ->
             sortRecords unicode_Map_ToLower sort_Slice m = None /\
             Update unicode_Map_ToLower sort_Slice (KeyMsg "n") m = None) /\
  (forall m, (List.length (records m) < 2)%nat ->
             sortRecords unicode_Map_ToLower sort_Slice m = Some m).
Proof.
  split; [exact less_name_panics|]. split; [|split].
  - intros m Hn Hnames. unfold sortRecords. rewrite Hn. cbn [comparator String.eqb].
    change (select "n" (sortAsc m)) with (Some (name_less (sortAsc m))).
    cbn iota beta.
    destruct (sort_Slice (name_less (sortAsc m)) (records m)) eqn:Hs; [discriminate|].
    exfalso. revert Hs. apply sort_does_return.
    intros a b Ha Hb H. apply less_name_panics in H.
    destruct H as [H|H]; [now apply (Hnames a) | now apply (Hnames b)].
  - intros m Hn Hlen (r & Hin & Hr).
    assert (Hsort : forall asc, sort_Slice (name_less asc) (records m) = None).
    { intros asc. apply (sort_does_compare_all _ _ r Hlen Hin).
      intros y. split; apply less_name_panics; auto. }
    split.
    + unfold sortRecords. rewrite Hn.
      change (select "n" (sortAsc m)) with (Some (name_less (sortAsc m))).
      cbn iota beta. now rewrite Hsort.
    + rewrite Update_sort_key by reflexivity.
      unfold sortRecords, toggleSort. rewrite Hn. cbn [String.eqb Ascii.eqb Bool.eqb].
      cbn [set_sort sortBy sortAsc records].
      change (select "n" (negb (sortAsc m))) with (Some (name_less (negb (sortAsc m)))).
      cbn iota beta. now rewrite Hsort.
  - intros m Hlen. unfold sortRecords.
    destruct (select (sortBy m) (sortAsc m)) as [less|]; [|reflexivity].
    rewrite sort_leaves_short by exact Hlen. now destruct m.
Qed.

(** *** The key presses return *)

(** Every comparator other than the one on names is total. *)
Lemma comparator_total key asc less l :
  comparator unicode_Map_ToLower key asc = Some less ->
  (key = "n" -> forall r, In r l -> Name r <> EmptyString) ->
  total_on less l.
Proof.
  unfold comparator. intros Hsel Hnames.
  repeat match type of Hsel with
         | (if (key =? ?k)%string then _ else _) = _ =>
             destruct (String.eqb_spec key k) as [->|_]
         end;
    try (injection Hsel as <-; discriminate);
    try discriminate Hsel.
  injection Hsel as <-. intros a b Ha Hb H. apply less_name_panics in H.
  destruct H as [H|H]; [now apply (Hnames eq_refl a) | now apply (Hnames eq_refl b)].
Qed.

(** In a state reached from the start a key press returns a state,
    provided no name is empty when the key is [n] and the table has a row
    when the key is [enter]. *)
Lemma Update_returns rs key m :
  allocatable rs -> window_ok rs m ->
  (key = "n" -> forall r, In r (records m) -> Name r <> EmptyString) ->
  (key = "enter" -> rows (table m) <> []) ->
  exists m', Update unicode_Map_ToLower sort_Slice (KeyMsg key) m = Some m' /\
             window_ok rs m'.
Proof.
  intros Hrs Hok Hnames Hrows.
  destruct (update (KeyMsg key) m) as [m'|] eqn:Hu.
  { exists m'. split; [reflexivity|]. now apply (window_ok_Update rs (KeyMsg key) m). }
  exfalso. revert Hu. pose proof Hok as (Hpp & Hp & Hstart & Hlen).
  pose proof (allocatable_room rs Hrs) as Hroom.
  assert (Hin : forall z, min_int <= 0 -> 0 <= z <= max_int -> in_int z)
    by (unfold in_int; lia).
  assert (Hmin : min_int <= 0) by (unfold min_int; lia).
  cbn [Update].
  destruct (String.eqb_spec key "enter") as [Henter|_].
  { specialize (Hrows Henter). destruct (rows (table m)); [congruence | discriminate]. }
  destruct (key =? "right")%string.
  { rewrite Hpp, (wrap64_id (page m * 50)) by (apply Hin; auto; lia).
    destruct (Z.ltb_spec (page m * 50) (len (records m))) as [Hlt|Hge];
      [|discriminate].
    rewrite (wrap64_id (page m + 1)) by (apply Hin; auto; lia).
    destruct (window_ok_updateTable rs (set_page m (page m + 1)) Hrs) as (m' & -> & _);
      [|discriminate].
    unfold window_ok. cbn. repeat split; auto; lia. }
  destruct (key =? "left")%string.
  { destruct (Z.gtb_spec (page m) 1) as [Hgt|Hle]; [|discriminate].
    rewrite (wrap64_id (page m - 1)) by (apply Hin; auto; lia).
    destruct (window_ok_updateTable rs (set_page m (page m - 1)) Hrs) as (m' & -> & _);
      [|discriminate].
    unfold window_ok. cbn. repeat split; auto; lia. }
  destruct (is_sort_key key); [|discriminate].
  assert (Htog : records (toggleSort key m) = records m /\
                 page (toggleSort key m) = page m /\
                 perPage (toggleSort key m) = perPage m /\
                 sortBy (toggleSort key m) = key).
  { unfold toggleSort. destruct (String.eqb_spec (sortBy m) key); now cbn. }
  destruct Htog as (Hr & Hpg & Hpp' & Hk).
  unfold sortRecords. rewrite Hk, Hr.
  destruct (select key (sortAsc (toggleSort key m))) as [less|] eqn:Hsel.
  - destruct (sort_Slice less (records m)) as [out|] eqn:Hs.
    + destruct (window_ok_updateTable rs (set_records (toggleSort key m) out) Hrs)
        as (m' & -> & _); [|discriminate].
      apply sort_is_permutation, Permutation_length in Hs.
      unfold window_ok, len in *. cbn. rewrite <- Hs, Hpg, Hpp'. now repeat split.
    + exfalso. revert Hs. apply sort_does_return.
      now apply (comparator_total key (sortAsc (toggleSort key m))).
  - destruct (window_ok_updateTable rs (toggleSort key m) Hrs) as (m' & -> & _);
      [|discriminate].
    unfold window_ok. now rewrite Hr, Hpg, Hpp'.
Qed.

End Facts.

End ViewFacts.

(** ** The view state on concrete inputs *)

Module ViewExamples.
Import View SortFacts ViewFacts Sample.

Local Abbreviation press := (fun key => Update caseless insertionSort_func (KeyMsg key)).
Local Abbreviation caps := (option_map (fun m => map MarketCap (records m))).

Lemma caseless_nonempty s : s <> EmptyString -> caseless s <> EmptyString.
Proof.
  destruct s as [|c s]; [congruence|]. intros _. cbn [caseless].
  destruct (byte_val c =? 195); [|discriminate].
  destruct s as [|d s]; [discriminate|].
  now destruct ((128 <=? byte_val d) && (byte_val d <=? 158) && negb (byte_val d =? 151)).
Qed.

(** Pressing [r] on the start state flips to descending, pressing it again
    gives ascending back, and [p] then starts ascending. *)
Lemma toggle_sort_key_witness :
  match press "r" (started three_coins) with
  | Some m1 =>
      (sortBy m1 = "r" /\ sortAsc m1 = false) /\
      match press "r" m1 with
      | Some m2 =>
          (sortBy m2 = "r" /\ sortAsc m2 = true) /\
          match press "p" m2 with
          | Some m3 => sortBy m3 = "p" /\ sortAsc m3 = true
          | None => False
          end
      | None => False
      end
  | None => False
  end.
Proof.
  pose proof (toggle_sort_key caseless insertionSort_func (started three_coins) "r")
    as (Hsame & _ & Hone & Htwo).
  destruct (Hsame eq_refl) as (Ha & Hb).
  cbn [started initial_model sortAsc sortBy negb] in Hb.
  destruct (press "r" (started three_coins)) as [m1|] eqn:H1;
    [|vm_compute in H1; discriminate H1].
  destruct (Hone eq_refl m1 eq_refl) as (Hc & Hd).
  split; [split; congruence|].
  destruct (press "r" m1) as [m2|] eqn:H2.
  - destruct (Htwo eq_refl eq_refl m1 m2 eq_refl H2) as (He & Hf).
    cbn [started initial_model sortAsc sortBy negb] in Hf.
    split; [split; congruence|].
    pose proof (toggle_sort_key caseless insertionSort_func m2 "p")
      as (_ & Hother & Hone' & _).
    assert (Hne : sortBy m2 <> "p") by (rewrite He; discriminate).
    destruct (Hother Hne) as (Hg & Hh).
    destruct (press "p" m2) as [m3|] eqn:H3.
    + destruct (Hone' eq_refl m3 eq_refl) as (Hi & Hj). split; congruence.
    + vm_compute in H1. injection H1 as <-.
      vm_compute in H2. injection H2 as <-.
      vm_compute in H3. discriminate H3.
  - vm_compute in H1. injection H1 as <-. vm_compute in H2. discriminate H2.
Defined.

(** "Bitcoin" and "BNB" both start with [b] once lower-cased: neither is
    before the other, in either direction; "Ethereum" is after both. *)
Lemma name_order_first_byte_witness :
  less_name caseless true (coin "Bitcoin" 5) (coin "BNB" 3) = Some false /\
  less_name caseless true (coin "BNB" 3) (coin "Bitcoin" 5) = Some false /\
  less_name caseless true (coin "Bitcoin" 5) (coin "Ethereum" 1) = Some true /\
  less_name caseless false (coin "Bitcoin" 5) (coin "Ethereum" 1) = Some false /\
  less_name caseless true (coin "bitcoin cash" 5) (coin "ETC" 1) =
    less_name caseless true (coin "Bitcoin" 5) (coin "Ethereum" 1).
Proof.
  pose proof (name_order_first_byte caseless true (coin "Bitcoin" 5) (coin "BNB" 3)
                "b" "itcoin" "b" "nb" eq_refl eq_refl) as (_ & H1 & _).
  pose proof (name_order_first_byte caseless true (coin "BNB" 3) (coin "Bitcoin" 5)
                "b" "nb" "b" "itcoin" eq_refl eq_refl) as (_ & H2 & _).
  pose proof (name_order_first_byte caseless true (coin "Bitcoin" 5) (coin "Ethereum" 1)
                "b" "itcoin" "e" "thereum" eq_refl eq_refl) as (_ & H3 & H5 & _).
  pose proof (name_order_first_byte caseless false (coin "Bitcoin" 5) (coin "Ethereum" 1)
                "b" "itcoin" "e" "thereum" eq_refl eq_refl) as (_ & H4 & _).
  split; [exact H1|]. split; [exact H2|]. split; [exact H3|]. split; [exact H4|].
  exact (H5 (coin "bitcoin cash" 5) (coin "ETC" 1) "itcoin cash" "tc" eq_refl eq_refl).
Defined.

(** C5 as stated fails on names that start outside ASCII.  The lower-cased
    names of [elan] and [uber] start with different characters, U+00E9
    (233) and U+00FC (252), whose UTF-8 sequences share the first byte 195:
    the comparator puts neither before the other, in either direction, and
    the ascending name sort leaves [uber] before [elan]. *)
Lemma accented_initials_are_not_ordered :
  first_character (ToLower caseless (Name elan)) = Some 233 /\
  first_character (ToLower caseless (Name uber)) = Some 252 /\
  less_name caseless true elan uber = Some false /\
  less_name caseless true uber elan = Some false /\
  less_name caseless false elan uber = Some false /\
  less_name caseless false uber elan = Some false /\
  sortRecords caseless insertionSort_func (by_name [uber; elan])
  = Some (by_name [uber; elan]).
Proof. vm_compute. repeat split. Qed.

(** The insertion sort on capitalisations 5, 1, 3. *)
Lemma rank_is_market_cap_witness :
  caps (sortRecords caseless insertionSort_func (set_sort (started three_coins) "r" true))
    = Some [1; 3; 5]%float /\
  caps (sortRecords caseless insertionSort_func (set_sort (started three_coins) "m" true))
    = Some [1; 3; 5]%float /\
  caps (sortRecords caseless insertionSort_func (set_sort (started three_coins) "r" false))
    = Some [5; 3; 1]%float /\
  caps (sortRecords caseless insertionSort_func (set_sort (started three_coins) "m" false))
    = Some [5; 3; 1]%float.
Proof.
  pose proof (rank_is_market_cap caseless insertionSort_func insertionSort_permutes
                insertionSort_returns insertionSort_orders) as (_ & _ & H).
  destruct (H (started three_coins) "r" (coin "Bitcoin" 5) (coin "Ethereum" 1)
              (coin "BNB" 3) (or_introl eq_refl) eq_refl eq_refl eq_refl eq_refl)
    as (Hr1 & Hr2).
  destruct (H (started three_coins) "m" (coin "Bitcoin" 5) (coin "Ethereum" 1)
              (coin "BNB" 3) (or_intror eq_refl) eq_refl eq_refl eq_refl eq_refl)
    as (Hm1 & Hm2).
  assert (Hc : forall o l, option_map records o = Some l ->
                           caps o = Some (map MarketCap l)).
  { intros [m|] l; [|discriminate]. cbn. now intros [= ->]. }
  split; [exact (Hc _ _ Hr1)|]. split; [exact (Hc _ _ Hm1)|].
  split; [exact (Hc _ _ Hr2) | exact (Hc _ _ Hm2)].
Defined.

(** 120 records, 50 per page. *)
Lemma pagination_witness :
  (exists m2 m3,
      press "right" (started many_coins) = Some m2 /\ page m2 = 2 /\
      press "right" m2 = Some m3 /\ page m3 = 3 /\
      List.length (rows (table m3)) = 20%nat /\
      map fst (rows (table m3)) = map Z.of_nat (seq 101 20) /\
      press "right" m3 = Some m3) /\
  press "left" (started many_coins) = Some (started many_coins).
Proof.
  destruct (press "right" (started many_coins)) as [m2|] eqn:H2;
    [|vm_compute in H2; discriminate H2].
  assert (Hm2 : page m2 = 2 /\ records m2 = many_coins /\ perPage m2 = 50).
  { vm_compute in H2. injection H2 as <-. repeat split. }
  destruct Hm2 as (Hp2 & Hr2 & Hpp2).
  pose proof (pagination caseless insertionSort_func m2) as (_ & _ & _ & _ & Hex).
  rewrite Hr2 in Hex. destruct (Hex eq_refl Hpp2) as (_ & Hto3 & _).
  destruct (Hto3 Hp2) as (m3 & H3 & Hp3 & Hrows).
  split.
  - exists m2, m3. split; [reflexivity|]. split; [exact Hp2|].
    split; [exact H3|]. split; [exact Hp3|].
    assert (Hm3 : Some m3 = press "right" m2) by (symmetry; exact H3).
    vm_compute in H2. injection H2 as <-.
    vm_compute in Hm3. injection Hm3 as ->.
    repeat split.
  - pose proof (pagination caseless insertionSort_func (started many_coins))
      as (_ & _ & _ & _ & Hex1).
    destruct (Hex1 eq_refl eq_refl) as (_ & _ & Hleft). exact (Hleft eq_refl).
Defined.

(** A run of navigation and sorting on 120 records ends in a state whose
    window is inside the records. *)
Lemma window_always_in_bounds_witness :
  match run caseless insertionSort_func a_session (started many_coins) with
  | Some m =>
      0 <= (page m - 1) * perPage m /\
      (page m - 1) * perPage m <= Z.min (page m * perPage m) (len (records m)) /\
      Z.min (page m * perPage m) (len (records m)) <= len (records m) /\
      updateTable m <> None
  | None => False
  end.
Proof.
  destruct (run caseless insertionSort_func a_session (started many_coins))
    as [m|] eqn:Hrun.
  - assert (Ha : allocatable many_coins) by (vm_compute; discriminate).
    destruct (window_always_in_bounds caseless insertionSort_func insertionSort_permutes
                many_coins a_session m Ha eq_refl Hrun)
      as (H1 & H2 & H3 & _ & _ & _ & H4).
    split; [exact H1|]. split; [exact H2|]. split; [exact H3 | exact H4].
  - vm_compute in Hrun. discriminate Hrun.
Defined.

(** Sorting by name: two records of which one has no name make the sort
    panic, named records are sorted, and a lone record is left alone. *)
Lemma name_sort_needs_names_witness :
  sortRecords caseless insertionSort_func (by_name [coin "Bitcoin" 5; unnamed]) = None /\
  Update caseless insertionSort_func (KeyMsg "n")
         (by_name [coin "Bitcoin" 5; unnamed]) = None /\
  sortRecords caseless insertionSort_func (by_name three_coins) <> None.
Proof.
  pose proof (name_sort_needs_names caseless insertionSort_func insertionSort_returns
                insertionSort_short insertionSort_compares_all caseless_nonempty)
    as (_ & Hsafe & Hpanic & _).
  destruct (Hpanic (by_name [coin "Bitcoin" 5; unnamed]) eq_refl (le_n 2)
                   (ex_intro _ unnamed (conj (or_intror (or_introl eq_refl)) eq_refl)))
    as (H1 & H2).
  split; [exact H1|]. split; [exact H2|].
  apply Hsafe; [reflexivity|].
  intros r [<-|[<-|[<-|[]]]]; discriminate.
Defined.

(** C10 as stated fails on a single record: it has an empty name, and
    sorting by name returns, no comparison being made; so does the key
    press. *)
Lemma lone_unnamed_record_is_sorted :
  (exists r, In r (records (by_name [unnamed])) /\ Name r = EmptyString) /\
  sortRecords caseless insertionSort_func (by_name [unnamed]) = Some (by_name [unnamed]) /\
  Update caseless insertionSort_func (KeyMsg "n") (started [unnamed]) <> None.
Proof.
  split; [exists unnamed; split; [now left | reflexivity]|].
  split; [reflexivity|]. vm_compute. discriminate.
Qed.

End ViewExamples.

(** ** More on the provider: bounds, outcomes, the log and the cache file *)

Module ProviderCoverage.
Import Provider ProviderFacts GetRecordsFacts.

(** Either every one of the first [n] answers satisfies [f], or there is a
    first one that does not. *)
Lemma first_exception (f : nat -> bool) n :
  (forall i, (i < n)%nat -> f i = true) \/
  (exists k, (k < n)%nat /\ f k = false /\ forall i, (i < k)%nat -> f i = true).
Proof.
  induction n as [|n [IH|(k & Hk & Hfk & Hbefore)]].
  - left. intros i Hi. lia.
  - destruct (f n) eqn:Hn.
    + left. intros i Hi. destruct (Nat.eq_dec i n) as [->|Hne]; [exact Hn|].
      apply IH. lia.
    + right. exists n. repeat split; auto.
  - right. exists k. repeat split; auto.
Qed.

Section Shape.

Variable env : Env.
Variables perPage page : Z.

(** The two ways the loop ends: after [n] retried attempts, or at the first
    answer that is not retried. *)
Lemma retry_loop_shape n delay resp err w :
  ((forall i, (i < n)%nat -> failed (http_Get env (i + gets w) perPage page) = true) /\
   retry_loop env perPage page n delay resp err w =
   (match n with
    | O => (resp, err)
    | S m => vars_of (http_Get env (m + gets w) perPage page)
    end, after_failures env perPage page n delay w)) \/
  (exists k rsp,
      (k < n)%nat /\
      (forall i, (i < k)%nat -> failed (http_Get env (i + gets w) perPage page) = true) /\
      http_Get env (k + gets w) perPage page = Ok rsp /\
      StatusCode rsp <> StatusTooManyRequests /\
      retry_loop env perPage page n delay resp err w =
      ((Some rsp, None),
       after_get env perPage page (after_failures env perPage page k delay w))).
Proof.
  destruct (first_exception
              (fun i => failed (http_Get env (i + gets w) perPage page)) n)
    as [Hall | (k & Hk & Hfk & Hbefore)].
  - left. split; [exact Hall|]. now apply retry_loop_exhausted.
  - right. destruct (http_Get env (k + gets w) perPage page) as [rsp|e] eqn:Hg;
      [|discriminate Hfk].
    cbn [failed] in Hfk. apply Z.eqb_neq in Hfk.
    exists k, rsp. repeat split; auto.
    replace n with (k + S (n - k - 1))%nat by lia.
    now apply retry_loop_success.
Qed.

End Shape.

Lemma sleeps_attempts pp p k :
  (k <= 5)%nat -> sleeps (attempts pp p k Second) = doubling k.
Proof.
  intros Hk. do 6 (destruct k as [|k]; [reflexivity|]). lia.
Qed.

Lemma slept_total k : (k <= 5)%nat -> slept k Second = fold_right Z.add 0 (doubling k).
Proof.
  intros Hk. do 6 (destruct k as [|k]; [reflexivity|]). lia.
Qed.

Lemma doubling_total k :
  (k <= 5)%nat -> fold_right Z.add 0 (doubling k) = (2 ^ Z.of_nat k - 1) * Second.
Proof.
  intros Hk. do 6 (destruct k as [|k]; [reflexivity|]). lia.
Qed.

Lemma waited_nonneg env n k : 0 <= waited env n k.
Proof.
  revert n. induction k as [|k IH]; intros n; cbn [waited]; [lia|].
  pose proof (IH (S n)). pose proof (N2Z.is_nonneg (http_time env n)). lia.
Qed.

Lemma count_writes_app t1 t2 :
  count_writes (t1 ++ t2) = (count_writes t1 + count_writes t2)%nat.
Proof. unfold count_writes. now rewrite filter_app, length_app. Qed.

Lemma count_writes_attempts pp p k delay : count_writes (attempts pp p k delay) = O.
Proof.
  revert delay. induction k as [|k IH]; intros delay; [reflexivity|].
  cbn [attempts]. unfold count_writes in *. cbn. apply IH.
Qed.

Section Outcome.

Variable env : Env.
Variable json_Unmarshal : string -> list CryptoRecord -> list CryptoRecord * option error.
Variable json_Marshal : list CryptoRecord -> Res string.

(** What follows the loop ends with the log line of its result, and touches
    the cache file only on the way to a successful return. *)
Lemma afterRetry_log re coins w res w' :
  afterRetry env json_Unmarshal json_Marshal re coins w = (Some res, w') ->
  (exists t op, trace w' = trace w ++ t ++ [EvLog op (err_of res)] /\
                In op (match res with Ok _ => success_tags | Err _ => failure_tags end)) /\
  (forall e, res = Err e -> cache_file w' = cache_file w /\
                            count_writes (trace w') = count_writes (trace w)).
Proof.
  unfold afterRetry, bind, logOperation, emit, ret, os_WriteFile.
  destruct re as [[rsp|] [e|]]; try discriminate;
    try destruct (Body rsp) as [body|e'];
    try destruct (json_Unmarshal body coins) as [c [e''|]];
    try destruct (json_Marshal c) as [data|e3];
    try destruct (write_fault env) as [[e4 f]|];
    intros [= <- <-]; cbn [trace cache_file err_of]; (split; [|intros e0 He0]);
    try discriminate He0;
    rewrite <- ?app_assoc; cbn [app];
    try (split; [reflexivity|]; unfold count_writes;
         rewrite !filter_app, !length_app; cbn; lia).
  all: match goal with
       | |- exists t op, ?l ++ [EvLog ?o ?x] = ?l ++ t ++ [EvLog op _] /\ _ =>
           exists [], o
       | |- exists t op, ?l ++ [?a; EvLog ?o ?x] = ?l ++ t ++ [EvLog op _] /\ _ =>
           exists [a], o
       | |- exists t op, ?l ++ [?a; ?b; EvLog ?o ?x] = ?l ++ t ++ [EvLog op _] /\ _ =>
           exists [a; b], o
       end; (split; [reflexivity | cbn; auto 6]).
Qed.

End Outcome.

Section Calls.

Variable env : Env.
Variable json_Unmarshal : string -> list CryptoRecord -> list CryptoRecord * option error.
Variable json_Marshal : list CryptoRecord -> Res string.
Variables page perPage : Z.

(** A call is a cache hit, or the loop followed by what comes after it. *)
Lemma GetRecords_unfold w :
  (exists rs, cache_hit json_Unmarshal w rs /\
              GetRecords env json_Unmarshal json_Marshal page perPage w =
              (Some (Ok rs),
               mkWorld (clock w) (cache_file w) (gets w)
                       (trace w ++ [EvLog "Cache Hit" None]))) \/
  (exists coins,
      cache_miss json_Unmarshal w coins /\
      GetRecords env json_Unmarshal json_Marshal page perPage w =
      afterRetry env json_Unmarshal json_Marshal
                 (fst (retry_loop env perPage page 5 Second None None w)) coins
                 (snd (retry_loop env perPage page 5 Second None None w))).
Proof.
  destruct (hit_or_miss json_Unmarshal w) as [(rs & H) | (coins & H & _)].
  - left. exists rs. split; [exact H|]. now apply GetRecords_hit.
  - right. exists coins. split; [exact H|].
    rewrite (GetRecords_miss env json_Unmarshal json_Marshal page perPage _ _ H).
    unfold fetchRecords, bind.
    now destruct (retry_loop env perPage page 5 Second None None w).
Qed.

(** [GetRecords] returns a result on every input: the nil [resp] is never
    dereferenced, because [err] is nil after the loop only when the last
    request was answered. *)
Theorem GetRecords_never_panics w :
  exists res, fst (GetRecords env json_Unmarshal json_Marshal page perPage w) = Some res.
Proof.
  pose proof (GetRecords_returns env json_Unmarshal json_Marshal page perPage w) as H.
  destruct (fst (GetRecords env json_Unmarshal json_Marshal page perPage w)) as [res|];
    [now exists res | now contradiction H].
Qed.

(** One call issues at most five requests and sleeps at most 31 seconds in
    all; it lasts at least as long as it sleeps. *)
Theorem GetRecords_bounded w :
  let w' := snd (GetRecords env json_Unmarshal json_Marshal page perPage w) in
  (gets w <= gets w' <= gets w + 5)%nat /\
  (count_gets (trace w') <= count_gets (trace w) + 5)%nat /\
  total_sleep (trace w) <= total_sleep (trace w') <= total_sleep (trace w) + 31 * Second /\
  clock w + (total_sleep (trace w') - total_sleep (trace w)) <= clock w'.
Proof.
  cbn zeta.
  destruct (GetRecords_unfold w) as [(rs & _ & ->) | (coins & _ & ->)].
  - cbn [snd gets trace clock]. rewrite count_gets_app, total_sleep_app.
    unfold Second. cbn. lia.
  - destruct (afterRetry env json_Unmarshal json_Marshal _ coins _) as [res w'] eqn:Ha.
    apply afterRetry_effects in Ha. destruct Ha as (Hg & Hc & t & Ht & Htg & Hts).
    assert (Htt : total_sleep t = 0) by (unfold total_sleep; now rewrite Hts).
    cbn [snd]. rewrite Hg, Hc, Ht, count_gets_app, total_sleep_app, Htg, Htt.
    assert (Hone : total_sleep [EvGet perPage page] = 0) by reflexivity.
    assert (Hk : forall k, (k <= 5)%nat ->
                           total_sleep (attempts perPage page k Second) =
                           (2 ^ Z.of_nat k - 1) * Second /\
                           slept k Second = (2 ^ Z.of_nat k - 1) * Second /\
                           0 < 2 ^ Z.of_nat k <= 32).
    { intros k Hle. unfold total_sleep.
      rewrite sleeps_attempts, slept_total, doubling_total by lia.
      repeat split; auto; do 6 (destruct k as [|k]; [cbn; lia|]); lia. }
    destruct (retry_loop_shape env perPage page 5 Second None None w)
      as [(_ & ->) | (k & rsp & Hlt & _ & _ & _ & ->)];
      cbn [snd after_get after_failures gets trace clock];
      rewrite ?count_gets_app, ?total_sleep_app, ?count_gets_attempts, ?Hone.
    + destruct (Hk 5%nat (le_n 5)) as (H1 & H2 & _). rewrite H1, H2.
      pose proof (waited_nonneg env (gets w) 5).
      unfold Second. cbn [count_gets filter is_get List.length]. lia.
    + destruct (Hk k ltac:(lia)) as (H1 & H2 & H3). rewrite H1, H2.
      assert (2 ^ Z.of_nat k <= 16).
      { do 5 (destruct k as [|k]; [cbn; lia|]). lia. }
      pose proof (waited_nonneg env (gets w) k).
      pose proof (N2Z.is_nonneg (http_time env (k + gets w))).
      unfold Second. cbn [count_gets filter is_get List.length]. lia.
Qed.

(** The first answer that is not an HTTP 429 ends the loop: with [k]
    retried attempts before it there are [k + 1] requests and the sleeps
    are 1s, 2s, ... doubling [k] times, none after the answer; at least
    the time slept has passed when the call returns. *)
Theorem first_answer_ends_the_loop coins err w k rsp :
  (k < 5)%nat ->
  (forall i, (i < k)%nat -> failed (http_Get env (i + gets w) perPage page) = true) ->
  http_Get env (k + gets w) perPage page = Ok rsp ->
  StatusCode rsp <> StatusTooManyRequests ->
  let w' := snd (fetchRecords env json_Unmarshal json_Marshal page perPage coins err w) in
  gets w' = (gets w + k + 1)%nat /\
  count_gets (trace w') = (count_gets (trace w) + k + 1)%nat /\
  sleeps (trace w') = sleeps (trace w) ++ doubling k /\
  clock w + (2 ^ Z.of_nat k - 1) * Second <= clock w'.
Proof.
  intros Hk Hf Hg Hs. cbn zeta. unfold fetchRecords, bind.
  assert (Hl : retry_loop env perPage page 5 Second None err w =
               ((Some rsp, None),
                after_get env perPage page (after_failures env perPage page k Second w))).
  { replace 5%nat with (k + S (5 - k - 1))%nat by lia.
    now apply retry_loop_success. }
  rewrite Hl.
  destruct (afterRetry env json_Unmarshal json_Marshal _ coins _) as [res w'] eqn:Ha.
  apply afterRetry_effects in Ha. destruct Ha as (Hgs & Hc & t & Ht & Htg & Hts).
  cbn [snd]. rewrite Hgs, Hc, Ht.
  cbn [after_get after_failures gets trace clock].
  rewrite !count_gets_app, !sleeps_app, count_gets_attempts, Htg, Hts.
  rewrite sleeps_attempts, slept_total, doubling_total by lia.
  cbn [sleeps count_gets filter is_get List.length]. rewrite !app_nil_r.
  pose proof (waited_nonneg env (gets w) k).
  pose proof (N2Z.is_nonneg (http_time env (k + gets w))).
  repeat split; lia.
Qed.

(** Only HTTP 429 is retried.  Any other answer is final whatever its status
    code: the call returns the records its body decodes to, or the error of
    reading or decoding the body; after such an error no further request is
    made and the cache file is left as it was. *)
Theorem answer_decides_by_body coins err w k rsp :
  (k < 5)%nat ->
  (forall i, (i < k)%nat -> failed (http_Get env (i + gets w) perPage page) = true) ->
  http_Get env (k + gets w) perPage page = Ok rsp ->
  StatusCode rsp <> StatusTooManyRequests ->
  let call := fetchRecords env json_Unmarshal json_Marshal page perPage coins err w in
  match Body rsp with
  | Err e =>
      fst call = Some (Err e) /\ cache_file (snd call) = cache_file w
  | Ok body =>
      match json_Unmarshal body coins with
      | (_, Some e) =>
          fst call = Some (Err e) /\ cache_file (snd call) = cache_file w /\
          count_writes (trace (snd call)) = count_writes (trace w)
      | (rs, None) => fst call = Some (Ok rs)
      end
  end /\
  gets (snd call) = (gets w + k + 1)%nat.
Proof.
  intros Hk Hf Hg Hs. cbn zeta. unfold fetchRecords, bind.
  assert (Hl : retry_loop env perPage page 5 Second None err w =
               ((Some rsp, None),
                after_get env perPage page (after_failures env perPage page k Second w))).
  { replace 5%nat with (k + S (5 - k - 1))%nat by lia.
    now apply retry_loop_success. }
  rewrite Hl.
  set (w1 := after_get env perPage page (after_failures env perPage page k Second w)).
  assert (Hc1 : cache_file w1 = cache_file w) by reflexivity.
  assert (Hw1 : count_writes (trace w1) = count_writes (trace w)).
  { unfold w1. cbn [after_get after_failures trace].
    rewrite !count_writes_app, count_writes_attempts. cbn. lia. }
  assert (Hg1 : gets w1 = (gets w + k + 1)%nat) by (cbn; lia).
  destruct (afterRetry env json_Unmarshal json_Marshal (Some rsp, None) coins w1)
    as [res w'] eqn:Ha.
  pose proof (afterRetry_effects _ _ _ _ _ _ _ _ Ha) as (Hgs & _).
  cbn [fst snd]. split; [|lia].
  destruct (Body rsp) as [body|e] eqn:Hb.
  - destruct (json_Unmarshal body coins) as [c [e|]] eqn:Hu.
    + assert (Hres : res = Some (Err e)).
      { revert Ha. unfold afterRetry, bind, logOperation, emit, ret.
        rewrite Hb, Hu. now intros [= <- _]. }
      subst res. apply afterRetry_log in Ha. destruct Ha as (_ & Hcache).
      destruct (Hcache e eq_refl) as (H1 & H2). repeat split; congruence.
    + pose proof (afterRetry_decoded env json_Unmarshal json_Marshal rsp body coins c w1
                                     Hb Hu) as Hd.
      rewrite Ha in Hd. exact Hd.
  - assert (Hres : res = Some (Err e)).
    { revert Ha. unfold afterRetry, bind, logOperation, emit, ret.
      rewrite Hb. now intros [= <- _]. }
    subst res. apply afterRetry_log in Ha. destruct Ha as (_ & Hcache).
    destruct (Hcache e eq_refl) as (H1 & _). split; congruence.
Qed.

(** When all five attempts fail the loop has slept after each of them, the
    last included: with 1 + 2 + 4 + 8 + 16 seconds of sleep, at least 31
    seconds pass before the call returns, and it returns the error of the
    fifth attempt when that attempt failed with one. *)
Theorem exhausted_backoff coins err w :
  (forall i, (i < 5)%nat -> failed (http_Get env (i + gets w) perPage page) = true) ->
  let call := fetchRecords env json_Unmarshal json_Marshal page perPage coins err w in
  gets (snd call) = (gets w + 5)%nat /\
  sleeps (trace (snd call)) =
    sleeps (trace w) ++ [1 * Second; 2 * Second; 4 * Second; 8 * Second; 16 * Second] /\
  clock w + 31 * Second <= clock (snd call) /\
  (forall e, http_Get env (4 + gets w) perPage page = Err e ->
             fst call = Some (Err e) /\ cache_file (snd call) = cache_file w).
Proof.
  intros Hf. cbn zeta. unfold fetchRecords, bind.
  rewrite (retry_loop_exhausted env perPage page 5 Second None err w Hf).
  destruct (afterRetry env json_Unmarshal json_Marshal _ coins _) as [res w'] eqn:Ha.
  pose proof (afterRetry_effects _ _ _ _ _ _ _ _ Ha) as (Hgs & Hc & t & Ht & _ & Hts).
  cbn [fst snd]. rewrite Hgs, Hc, Ht, sleeps_app, Hts, app_nil_r.
  cbn [after_failures gets trace clock]. rewrite sleeps_app.
  pose proof (waited_nonneg env (gets w) 5).
  split; [lia|]. split; [reflexivity|].
  split; [cbn [slept]; unfold Second, wrap64; cbn; lia|].
  intros e He. rewrite He in Ha. cbn [vars_of] in Ha.
  assert (Hres : res = Some (Err e)).
  { revert Ha. unfold afterRetry, bind, logOperation, emit, ret.
    now intros [= <- _]. }
  subst res. apply afterRetry_log in Ha. destruct Ha as (_ & Hcache).
  destruct (Hcache e eq_refl) as (H1 & _). split; [reflexivity | exact H1].
Qed.

(** The cache file changes only on a successful fetch from the network: a
    call that returns an error, and a call that issues no request, leave the
    file alone and do not try to write it. *)
Theorem cache_changes_only_on_fetch w res w' :
  GetRecords env json_Unmarshal json_Marshal page perPage w = (Some res, w') ->
  (exists e, res = Err e) \/ gets w' = gets w ->
  cache_file w' = cache_file w /\
  count_writes (trace w') = count_writes (trace w).
Proof.
  intros Hcall Hcase.
  destruct (GetRecords_unfold w) as [(rs & _ & Hhit) | (coins & _ & Hmiss)].
  - rewrite Hhit in Hcall. injection Hcall as _ <-. cbn [cache_file trace].
    split; [reflexivity|]. rewrite count_writes_app. cbn. lia.
  - rewrite Hmiss in Hcall.
    destruct (retry_loop env perPage page 5 Second None None w) as [re w1] eqn:Hl.
    cbn [fst snd] in Hcall.
    pose proof (retry_loop_effects env page perPage 4 _ _ _ _ _ _ Hl)
      as (_ & Hc1 & Hg1 & _).
    pose proof (afterRetry_effects _ _ _ _ _ _ _ _ Hcall) as (Hgs & _).
    destruct Hcase as [(e & ->) | Hsame]; [|lia].
    apply afterRetry_log in Hcall. destruct Hcall as (_ & Hcache).
    destruct (Hcache e eq_refl) as (H1 & H2).
    split; [congruence|]. rewrite H2.
    destruct (retry_loop_shape env perPage page 5 Second None None w)
      as [(_ & Hsh) | (k & rsp & _ & _ & _ & _ & Hsh)];
      rewrite Hl in Hsh; injection Hsh as _ ->;
      cbn [after_get after_failures trace];
      rewrite !count_writes_app, count_writes_attempts; cbn; lia.
Qed.

(** Every call ends with a line in the log that carries its result: the
    error it returns, or none, under a tag of the branch it took. *)
Theorem every_call_is_logged w res w' :
  GetRecords env json_Unmarshal json_Marshal page perPage w = (Some res, w') ->
  exists t op,
    trace w' = trace w ++ t ++ [EvLog op (err_of res)] /\
    In op (match res with Ok _ => success_tags | Err _ => failure_tags end).
Proof.
  intros Hcall.
  destruct (GetRecords_unfold w) as [(rs & _ & Hhit) | (coins & _ & Hmiss)].
  - rewrite Hhit in Hcall. injection Hcall as <- <-.
    exists [], "Cache Hit". split; [reflexivity | now left].
  - rewrite Hmiss in Hcall.
    destruct (retry_loop env perPage page 5 Second None None w) as [re w1] eqn:Hl.
    cbn [fst snd] in Hcall.
    pose proof (retry_loop_effects env page perPage 4 _ _ _ _ _ _ Hl)
      as ((t1 & Ht1) & _).
    apply afterRetry_log in Hcall. destruct Hcall as ((t & op & Ht & Hop) & _).
    exists (EvGet perPage page :: t1 ++ t), op. split; [|exact Hop].
    rewrite Ht, Ht1. cbn [app]. now rewrite <- !app_assoc.
Qed.

End Calls.

(** Reading the snapshot does not renew it: a cache hit leaves the file and
    its modification time as they were, so a call made when the file is 30
    seconds old or older goes to the network, however often the file was
    read in between. *)
Theorem reads_do_not_extend_freshness
        env json_Unmarshal json_Marshal page perPage w rs f :
  cache_hit json_Unmarshal w rs ->
  cache_file w = Some f ->
  let w1 := snd (GetRecords env json_Unmarshal json_Marshal page perPage w) in
  cache_file w1 = Some f /\
  (forall env2 page2 perPage2 d,
      30 * Second <= clock w + d - ModTime f <= max_int ->
      (gets w1 <
       gets (snd (GetRecords env2 json_Unmarshal json_Marshal page2 perPage2
                             (advance d w1))))%nat).
Proof.
  intros Hhit Hf. cbn zeta.
  rewrite (GetRecords_hit env json_Unmarshal json_Marshal page perPage w rs Hhit).
  cbn [snd]. split; [exact Hf|].
  intros env2 page2 perPage2 d Hd.
  set (w1 := mkWorld (clock w) (cache_file w) (gets w)
                     (trace w ++ [EvLog "Cache Hit" None])).
  assert (Hmiss : cache_miss json_Unmarshal (advance d w1) []).
  { right; left. exists f. unfold advance, w1. cbn [cache_file clock].
    repeat split; auto. rewrite sat64_id; [lia|].
    unfold in_int, min_int, max_int, Second in *. lia. }
  rewrite (GetRecords_miss env2 json_Unmarshal json_Marshal page2 perPage2 _ _ Hmiss).
  unfold fetchRecords, bind.
  destruct (retry_loop env2 perPage2 page2 5 Second None None (advance d w1))
    as [re w2] eqn:Hl.
  pose proof (retry_loop_effects env2 page2 perPage2 4 _ _ _ _ _ _ Hl)
    as (_ & _ & Hg & _).
  destruct (afterRetry env2 json_Unmarshal json_Marshal re [] w2) as [res w3] eqn:Ha.
  apply afterRetry_effects in Ha. destruct Ha as (Hgs & _).
  cbn [snd]. rewrite Hgs. exact Hg.
Qed.

End ProviderCoverage.

Module ProviderCoverageExamples.
Import Provider ProviderCoverage Sample.

Local Abbreviation server_error_call :=
  (fetchRecords env_server_error sample_Unmarshal sample_Marshal 1 50 [] None world_cold).

(** One HTTP 429, then a status 500: two requests and one second of sleep. *)
Lemma first_answer_ends_the_loop_witness :
  gets (snd server_error_call) = 2%nat /\
  count_gets (trace (snd server_error_call)) = 2%nat /\
  sleeps (trace (snd server_error_call)) = [1 * Second] /\
  clock world_cold + 1 * Second <= clock (snd server_error_call).
Proof.
  assert (Hf : forall i, (i < 1)%nat ->
                         failed (http_Get env_server_error (i + gets world_cold) 50 1) = true).
  { intros i Hi. destruct i as [|i]; [reflexivity | lia]. }
  assert (Hs : StatusCode (mkResponse 500 (Ok "Internal Server Error"))
               <> StatusTooManyRequests) by discriminate.
  exact (first_answer_ends_the_loop env_server_error sample_Unmarshal sample_Marshal
           1 50 [] None world_cold 1 (mkResponse 500 (Ok "Internal Server Error"))
           (le_n_S _ _ (le_n_S _ _ (le_0_n 3))) Hf eq_refl Hs).
Defined.

(** The body of the status 500 answer is decoded, fails to decode, and that
    error is returned with no third request. *)
Lemma answer_decides_by_body_witness :
  (fst server_error_call
   = Some (Err "invalid character looking for beginning of value") /\
   cache_file (snd server_error_call) = cache_file world_cold /\
   count_writes (trace (snd server_error_call)) = count_writes (trace world_cold)) /\
  gets (snd server_error_call) = 2%nat.
Proof.
  assert (Hf : forall i, (i < 1)%nat ->
                         failed (http_Get env_server_error (i + gets world_cold) 50 1) = true).
  { intros i Hi. destruct i as [|i]; [reflexivity | lia]. }
  assert (Hs : StatusCode (mkResponse 500 (Ok "Internal Server Error"))
               <> StatusTooManyRequests) by discriminate.
  exact (answer_decides_by_body env_server_error sample_Unmarshal sample_Marshal
           1 50 [] None world_cold 1 (mkResponse 500 (Ok "Internal Server Error"))
           (le_n_S _ _ (le_n_S _ _ (le_0_n 3))) Hf eq_refl Hs).
Defined.

(** With no connection the call takes more than 31 seconds to fail. *)
Lemma exhausted_backoff_witness :
  clock world_cold + 31 * Second
  <= clock (snd (fetchRecords env_offline sample_Unmarshal sample_Marshal
                              1 50 [] None world_cold)) /\
  fst (fetchRecords env_offline sample_Unmarshal sample_Marshal 1 50 [] None world_cold)
  = Some (Err "dial tcp: connection refused").
Proof.
  destruct (exhausted_backoff env_offline sample_Unmarshal sample_Marshal 1 50
                              [] None world_cold (fun i _ => eq_refl))
    as (_ & _ & Hc & He).
  split; [exact Hc|]. exact (proj1 (He "dial tcp: connection refused" eq_refl)).
Defined.

(** A failed refresh of a stale cache file leaves the stale file in place. *)
Lemma cache_changes_only_on_fetch_witness :
  cache_file (snd (GetRecords env_offline sample_Unmarshal sample_Marshal
                              1 50 world_stale)) = cache_file world_stale /\
  count_writes (trace (snd (GetRecords env_offline sample_Unmarshal sample_Marshal
                                       1 50 world_stale))) = 0%nat.
Proof.
  assert (Hcall : GetRecords env_offline sample_Unmarshal sample_Marshal 1 50 world_stale
                  = (Some (Err "dial tcp: connection refused"),
                     snd (GetRecords env_offline sample_Unmarshal sample_Marshal
                                     1 50 world_stale)))
    by (vm_compute; reflexivity).
  exact (cache_changes_only_on_fetch env_offline sample_Unmarshal sample_Marshal 1 50
           world_stale (Err "dial tcp: connection refused") _ Hcall
           (or_introl (ex_intro _ "dial tcp: connection refused" eq_refl))).
Defined.

(** A successful fetch ends with the line tagged [Fetch Records]. *)
Lemma every_call_is_logged_witness :
  exists t op,
    trace (snd (GetRecords env_online sample_Unmarshal sample_Marshal 1 50 world_cold))
    = trace world_cold ++ t ++ [EvLog op None] /\
    In op success_tags.
Proof.
  assert (Hcall : GetRecords env_online sample_Unmarshal sample_Marshal 1 50 world_cold
                  = (Some (Ok [record_of_byte "a"; record_of_byte "b"]),
                     snd (GetRecords env_online sample_Unmarshal sample_Marshal
                                     1 50 world_cold)))
    by (vm_compute; reflexivity).
  exact (every_call_is_logged env_online sample_Unmarshal sample_Marshal 1 50
           world_cold (Ok [record_of_byte "a"; record_of_byte "b"]) _ Hcall).
Defined.

(** The file of [world_fresh] is 5 seconds old; read now and again 25
    seconds later, the second call goes to the network. *)
Lemma reads_do_not_extend_freshness_witness :
  let w1 := snd (GetRecords env_online sample_Unmarshal sample_Marshal 1 50 world_fresh) in
  cache_file w1 = cache_file world_fresh /\
  (gets w1 <
   gets (snd (GetRecords env_online sample_Unmarshal sample_Marshal 1 50
                         (advance (25 * Second) w1))))%nat.
Proof.
  assert (Hhit : cache_hit sample_Unmarshal world_fresh
                           [record_of_byte "c"; record_of_byte "d"]).
  { exists (mkFile (95 * Second) (Ok "[cd")), "[cd". repeat split; reflexivity. }
  destruct (reads_do_not_extend_freshness env_online sample_Unmarshal sample_Marshal
              1 50 world_fresh _ (mkFile (95 * Second) (Ok "[cd")) Hhit eq_refl)
    as (Hfile & Hnext).
  split; [exact Hfile|].
  apply (Hnext env_online 1 50 (25 * Second)).
  split; vm_compute; discriminate.
Defined.

End ProviderCoverageExamples.

(** ** The order of [<] on floats that are not NaN *)

Module FloatFacts.
Import View.

Lemma is_nan_spec x : PrimFloat.is_nan x = false -> Prim2SF x <> S754_nan.
Proof.
  unfold PrimFloat.is_nan. rewrite FloatAxioms.eqb_spec. intros H Hn.
  rewrite Hn in H. discriminate H.
Qed.

Lemma SFltb_rank f1 f2 :
  f1 <> S754_nan -> f2 <> S754_nan ->
  (SFltb f1 f2 = true <-> rank_lt (float_rank f1) (float_rank f2)).
Proof.
  intros H1 H2. unfold SFltb, SFcompare, rank_lt, float_rank.
  destruct f1 as [s1|s1| |s1 m1 e1]; try congruence;
    destruct f2 as [s2|s2| |s2 m2 e2]; try congruence;
    try destruct s1; try destruct s2;
    try (split; [discriminate | lia]);
    try (split; [intros _; lia | reflexivity]);
    change (Pos.compare_cont Eq m1 m2) with (Pos.compare m1 m2);
    destruct (Z.compare_spec e1 e2); destruct (Pos.compare_spec m1 m2);
    cbn [CompOpp]; split; intros; try discriminate; try reflexivity; lia.
Qed.

Lemma SFleb_rank f1 f2 :
  f1 <> S754_nan -> f2 <> S754_nan ->
  (SFleb f1 f2 = true <-> ~ rank_lt (float_rank f2) (float_rank f1)).
Proof.
  intros H1 H2. unfold SFleb, SFcompare, rank_lt, float_rank.
  destruct f1 as [s1|s1| |s1 m1 e1]; try congruence;
    destruct f2 as [s2|s2| |s2 m2 e2]; try congruence;
    try destruct s1; try destruct s2;
    try (split; [discriminate | lia]);
    try (split; [intros _; lia | reflexivity]);
    change (Pos.compare_cont Eq m1 m2) with (Pos.compare m1 m2);
    destruct (Z.compare_spec e1 e2); destruct (Pos.compare_spec m1 m2);
    cbn [CompOpp]; split; intros; try discriminate; try reflexivity; lia.
Qed.

(** Go's [x < y] on two floats that are not NaN. *)
Lemma ltb_rank x y :
  PrimFloat.is_nan x = false -> PrimFloat.is_nan y = false ->
  (PrimFloat.ltb x y = true <->
   rank_lt (float_rank (Prim2SF x)) (float_rank (Prim2SF y))).
Proof.
  intros Hx Hy. rewrite ltb_spec.
  apply SFltb_rank; now apply is_nan_spec.
Qed.

Lemma ltb_rank_false x y :
  PrimFloat.is_nan x = false -> PrimFloat.is_nan y = false ->
  (PrimFloat.ltb x y = false <->
   ~ rank_lt (float_rank (Prim2SF x)) (float_rank (Prim2SF y))).
Proof.
  intros Hx Hy. rewrite <- (ltb_rank x y Hx Hy).
  destruct (PrimFloat.ltb x y); split; congruence.
Qed.

(** [x <= y] is "not [y < x]" away from NaN. *)
Lemma leb_ltb x y :
  PrimFloat.is_nan x = false -> PrimFloat.is_nan y = false ->
  (PrimFloat.leb x y = true <-> PrimFloat.ltb y x = false).
Proof.
  intros Hx Hy. rewrite (ltb_rank_false y x Hy Hx), leb_spec.
  apply SFleb_rank; now apply is_nan_spec.
Qed.

Lemma rank_lt_irrefl a : ~ rank_lt a a.
Proof. destruct a as [[a1 a2] a3]. unfold rank_lt. lia. Qed.

Lemma rank_lt_trans a b c : rank_lt a b -> rank_lt b c -> rank_lt a c.
Proof.
  destruct a as [[a1 a2] a3], b as [[b1 b2] b3], c as [[c1 c2] c3].
  unfold rank_lt. lia.
Qed.

Lemma rank_lt_negtrans a b c : ~ rank_lt a b -> ~ rank_lt b c -> ~ rank_lt a c.
Proof.
  destruct a as [[a1 a2] a3], b as [[b1 b2] b3], c as [[c1 c2] c3].
  unfold rank_lt. lia.
Qed.

(** On records whose field is never NaN the comparator of a numeric key is
    a strict weak ordering, in either direction. *)
Lemma less_float_strict_weak field asc l :
  (forall r, In r l -> PrimFloat.is_nan (field r) = false) ->
  strict_weak_on (less_float field asc) l.
Proof.
  intros Hnan. unfold strict_weak_on, total_on, less_float.
  split; [discriminate|]. split; [|split].
  - intros a Ha. f_equal.
    destruct asc; apply ltb_rank_false; auto; apply rank_lt_irrefl.
  - intros a b c Ha Hb Hc Hab Hbc.
    injection Hab as Hab. injection Hbc as Hbc. f_equal.
    destruct asc; apply ltb_rank in Hab; apply ltb_rank in Hbc; auto;
      apply ltb_rank; auto; eapply rank_lt_trans; eauto.
  - intros a b c Ha Hb Hc Hab Hbc.
    injection Hab as Hab. injection Hbc as Hbc. f_equal.
    destruct asc; apply ltb_rank_false in Hab; apply ltb_rank_false in Hbc; auto;
      apply ltb_rank_false; auto.
    + eapply rank_lt_negtrans; eauto.
    + intros H. eapply (rank_lt_negtrans _ _ _ Hbc Hab); eauto.
Qed.

End FloatFacts.

(** ** More on the view: what a sort gives, the header, the rows, the pages *)

Module ViewCoverage.
Import View ViewFacts FloatFacts.

Lemma StronglySorted_weaken {A} (R1 R2 : A -> A -> Prop) l :
  (forall a b, In a l -> In b l -> R1 a b -> R2 a b) ->
  StronglySorted R1 l -> StronglySorted R2 l.
Proof.
  intros Himp Hs. induction Hs as [|a l Hs IH Ha]; [constructor|].
  constructor.
  - apply IH. intros x y Hx Hy. apply Himp; now right.
  - rewrite Forall_forall in Ha |- *. intros b Hb.
    apply Himp; [now left | now right | now apply Ha].
Qed.

(** A comparator that compares integer keys is a strict weak ordering. *)
Lemma key_order_strict_weak (less : CryptoRecord -> CryptoRecord -> option bool)
      (key : CryptoRecord -> Z) (asc : bool) l :
  (forall a b, In a l -> In b l ->
               less a b = Some (if asc then key a <? key b else key b <? key a)) ->
  strict_weak_on less l.
Proof.
  intros Hless. unfold strict_weak_on, total_on.
  split; [intros a b Ha Hb; rewrite (Hless a b Ha Hb); discriminate|].
  split; [|split].
  - intros a Ha. rewrite (Hless a a Ha Ha). f_equal.
    destruct asc; apply Z.ltb_irrefl.
  - intros a b c Ha Hb Hc. rewrite (Hless a b), (Hless b c), (Hless a c) by auto.
    intros [= Hab] [= Hbc]. f_equal.
    destruct asc; apply Z.ltb_lt in Hab, Hbc; apply Z.ltb_lt; lia.
  - intros a b c Ha Hb Hc. rewrite (Hless a b), (Hless b c), (Hless a c) by auto.
    intros [= Hab] [= Hbc]. f_equal.
    destruct asc; apply Z.ltb_ge in Hab, Hbc; apply Z.ltb_ge; lia.
Qed.

Lemma comparator_of_field unicode_Map_ToLower key asc field :
  field_of_key key = Some field ->
  comparator unicode_Map_ToLower key asc = Some (less_float field asc).
Proof.
  unfold field_of_key, comparator. intros H.
  destruct (key =? "r")%string; [now injection H as <-|].
  destruct (key =? "n")%string eqn:Hn.
  { apply String.eqb_eq in Hn. subst key. discriminate H. }
  repeat match type of H with
         | (if ?c then _ else _) = _ => destruct c; [now injection H as <-|]
         end.
  discriminate H.
Qed.

Section Sorting.

Variable unicode_Map_ToLower : string -> string.
Variable sort_Slice :
  (CryptoRecord -> CryptoRecord -> option bool) ->
  list CryptoRecord -> option (list CryptoRecord).

Hypothesis sort_is_permutation : sort_permutes sort_Slice.
Hypothesis sort_does_return : sort_returns sort_Slice.
Hypothesis sort_does_order : sort_orders sort_Slice.
Hypothesis unicode_Map_nonempty :
  forall s, s <> EmptyString -> unicode_Map_ToLower s <> EmptyString.

(** What [sortRecords] does once the comparator is known to be a strict
    weak ordering of the records. *)
Lemma sortRecords_with m less :
  comparator unicode_Map_ToLower (sortBy m) (sortAsc m) = Some less ->
  strict_weak_on less (records m) ->
  exists m', sortRecords unicode_Map_ToLower sort_Slice m = Some m' /\
             m' = set_records m (records m') /\
             Permutation (records m) (records m') /\
             StronglySorted (fun a b => less b a = Some false) (records m').
Proof.
  intros Hsel Hswo. unfold sortRecords. rewrite Hsel.
  destruct (sort_Slice less (records m)) as [out|] eqn:Hs.
  - exists (set_records m out). cbn [records set_records].
    split; [reflexivity|]. split; [reflexivity|].
    split; [now apply (sort_is_permutation less) | now apply (sort_does_order less _ _ Hswo)].
  - exfalso. revert Hs. apply sort_does_return. exact (proj1 Hswo).
Qed.

(** Sorting by a numeric key returns the same records in non-decreasing
    order of the field when ascending and in non-increasing order when
    descending, provided the field is NaN in none of them. *)
Theorem numeric_sort_orders m field :
  field_of_key (sortBy m) = Some field ->
  (forall r, In r (records m) -> PrimFloat.is_nan (field r) = false) ->
  exists m',
    sortRecords unicode_Map_ToLower sort_Slice m = Some m' /\
    m' = set_records m (records m') /\
    Permutation (records m) (records m') /\
    StronglySorted
      (fun a b => if sortAsc m then PrimFloat.leb (field a) (field b) = true
                  else PrimFloat.leb (field b) (field a) = true)
      (records m').
Proof.
  intros Hkey Hnan.
  destruct (sortRecords_with m (less_float field (sortAsc m)))
    as (m' & Hs & Hm' & Hperm & Hsorted).
  - now apply comparator_of_field.
  - now apply less_float_strict_weak.
  - exists m'. split; [exact Hs|]. split; [exact Hm'|]. split; [exact Hperm|].
    refine (StronglySorted_weaken _ _ _ _ Hsorted). intros a b Ha Hb H.
    assert (Hna : PrimFloat.is_nan (field a) = false)
      by (apply Hnan; now apply (Permutation_in _ (Permutation_sym Hperm))).
    assert (Hnb : PrimFloat.is_nan (field b) = false)
      by (apply Hnan; now apply (Permutation_in _ (Permutation_sym Hperm))).
    unfold less_float in H. injection H as H.
    destruct (sortAsc m); now apply leb_ltb.
Qed.

(** The comparator on names compares [name_key] when no name is empty. *)
Lemma less_name_key asc a b :
  Name a <> EmptyString -> Name b <> EmptyString ->
  less_name unicode_Map_ToLower asc a b =
  Some (if asc
        then name_key unicode_Map_ToLower a <? name_key unicode_Map_ToLower b
        else name_key unicode_Map_ToLower b <? name_key unicode_Map_ToLower a).
Proof.
  intros Ha Hb. unfold less_name, name_key.
  destruct (ToLower unicode_Map_ToLower (Name a)) as [|x xs] eqn:Hla.
  { now apply (proj1 (ToLower_empty unicode_Map_ToLower unicode_Map_nonempty _)) in Hla. }
  destruct (ToLower unicode_Map_ToLower (Name b)) as [|y ys] eqn:Hlb.
  { now apply (proj1 (ToLower_empty unicode_Map_ToLower unicode_Map_nonempty _)) in Hlb. }
  reflexivity.
Qed.

(** Sorting by name returns the same records ordered by the first byte of
    the lower-cased name, provided no name is empty. *)
Theorem name_sort_orders m :
  sortBy m = "n" ->
  (forall r, In r (records m) -> Name r <> EmptyString) ->
  exists m',
    sortRecords unicode_Map_ToLower sort_Slice m = Some m' /\
    m' = set_records m (records m') /\
    Permutation (records m) (records m') /\
    StronglySorted
      (fun a b => if sortAsc m
                  then name_key unicode_Map_ToLower a <= name_key unicode_Map_ToLower b
                  else name_key unicode_Map_ToLower b <= name_key unicode_Map_ToLower a)
      (records m').
Proof.
  intros Hkey Hnames.
  destruct (sortRecords_with m (less_name unicode_Map_ToLower (sortAsc m)))
    as (m' & Hs & Hm' & Hperm & Hsorted).
  - now rewrite Hkey.
  - apply (key_order_strict_weak _ (name_key unicode_Map_ToLower) (sortAsc m)).
    intros a b Ha Hb. apply less_name_key; now apply Hnames.
  - exists m'. split; [exact Hs|]. split; [exact Hm'|]. split; [exact Hperm|].
    refine (StronglySorted_weaken _ _ _ _ Hsorted). intros a b Ha Hb H.
    assert (Hna : Name a <> EmptyString)
      by (apply Hnames; now apply (Permutation_in _ (Permutation_sym Hperm))).
    assert (Hnb : Name b <> EmptyString)
      by (apply Hnames; now apply (Permutation_in _ (Permutation_sym Hperm))).
    rewrite (less_name_key _ b a Hnb Hna) in H. injection H as H.
    destruct (sortAsc m); apply Z.ltb_ge in H; exact H.
Qed.

(** A press of a sort key never drops or duplicates a record, and stays on
    the page it was on. *)
Theorem sort_key_press_permutes key m m' :
  is_sort_key key = true ->
  Update unicode_Map_ToLower sort_Slice (KeyMsg key) m = Some m' ->
  Permutation (records m) (records m') /\
  page m' = page m /\ perPage m' = perPage m.
Proof.
  intros Hk Hu.
  destruct (Update_sort_key_flags unicode_Map_ToLower sort_Slice key m m' Hk Hu)
    as (_ & _ & Hp & Hpp).
  split; [|now split].
  rewrite (Update_sort_key unicode_Map_ToLower sort_Slice key m Hk) in Hu.
  destruct (sortRecords unicode_Map_ToLower sort_Slice (toggleSort key m))
    as [m2|] eqn:Hs; [|discriminate].
  apply updateTable_fields in Hu. rewrite Hu. cbn [records set_table].
  assert (Hrec : records (toggleSort key m) = records m)
    by (unfold toggleSort; now destruct (sortBy m =? key)%string).
  rewrite <- Hrec. revert Hs. unfold sortRecords.
  destruct (comparator _ _ _) as [less|]; [|now intros [= <-]].
  destruct (sort_Slice less _) as [out|] eqn:Hsort; [|discriminate].
  intros [= <-]. cbn. now apply (sort_is_permutation less).
Qed.

End Sorting.

(** *** The table [updateTable] builds *)

Lemma add_to_title_nth i suffix cs :
  forall j,
    nth_error (add_to_title i suffix cs) j =
    match nth_error cs j with
    | Some (t, w) => Some (if Nat.eqb i j then (t ++ suffix)%string else t, w)
    | None => None
    end.
Proof.
  revert i. induction cs as [|[t w] cs IH]; intros i j.
  - destruct i, j; reflexivity.
  - destruct i as [|i], j as [|j]; cbn [add_to_title nth_error Nat.eqb];
      try reflexivity.
    + now destruct (nth_error cs j) as [[t' w']|].
    + apply IH.
Qed.

Lemma range_from_nth {A} (l : list A) :
  forall i j,
    nth_error (range_from i l) j =
    option_map (fun x => (i + Z.of_nat j, x)) (nth_error l j).
Proof.
  induction l as [|x l IH]; intros i j.
  - now destruct j.
  - destruct j as [|j]; cbn [range_from nth_error option_map].
    + now rewrite Z.add_0_r.
    + rewrite IH. destruct (nth_error l j); cbn; [|reflexivity].
      do 2 f_equal. lia.
Qed.

(** The header [updateTable] sets has the ten columns with their widths;
    the title of the column of the active sort key is followed by the arrow
    of the direction, every other title is bare.  No key decorates the
    Symbol column, and a sort key decorates exactly one column. *)
Theorem header_decoration m m' :
  updateTable m = Some m' ->
  (forall j,
      nth_error (columns (table m')) j =
      match nth_error base_columns j with
      | Some (t, w) =>
          Some (if match column_of_key (sortBy m) with
                   | Some i => Nat.eqb i j
                   | None => false
                   end
                then (t ++ getSortArrow (sortAsc m))%string else t, w)
      | None => None
      end) /\
  map snd (columns (table m')) = map snd base_columns /\
  column_of_key (sortBy m) <> Some 2%nat /\
  (is_sort_key (sortBy m) = true ->
   exists i, column_of_key (sortBy m) = Some i /\ (i < 10)%nat).
Proof.
  intros Hu. unfold updateTable in Hu.
  destruct (slice (records m) _ _) as [window|]; [|discriminate].
  injection Hu as <-. cbn [table set_table columns].
  assert (Hcol : forall key, column_of_key key <> Some 2%nat).
  { intros key. unfold column_of_key.
    repeat match goal with
           | |- (if ?c then _ else _) <> _ => destruct c; [discriminate|]
           end.
    discriminate. }
  split; [|split; [|split]].
  - intros j. destruct (column_of_key (sortBy m)) as [i|].
    + apply add_to_title_nth.
    + destruct (nth_error base_columns j) as [[t w]|]; reflexivity.
  - destruct (column_of_key (sortBy m)) as [i|]; [|reflexivity].
    generalize base_columns. intros cs. revert i.
    induction cs as [|[t w] cs IH]; intros [|i]; cbn; try reflexivity.
    now rewrite IH.
  - apply Hcol.
  - intros Hk. apply is_sort_key_cases in Hk. cbn [In] in Hk.
    repeat (destruct Hk as [<-|Hk]; [eexists; split; [reflexivity | lia]|]).
    destruct Hk.
Qed.

(** Row [i] of the table shows the record at index [start + i] of the
    records as they are ordered now, under the rank [start + i + 1]: the
    Rank column is the position in the current ordering. *)
Theorem rows_are_positions m m' :
  updateTable m = Some m' ->
  len (records m) < max_int ->
  let start := wrap64 ((page m - 1) * perPage m) in
  0 <= start <= len (records m) /\
  (List.length (rows (table m')) <= List.length (records m))%nat /\
  forall i row,
    nth_error (rows (table m')) i = Some row ->
    fst row = start + 1 + Z.of_nat i /\
    nth_error (records m) (Z.to_nat start + i) = Some (snd row).
Proof.
  intros Hu Hlen. cbn zeta. unfold updateTable in Hu.
  rewrite wrap64_window_end, wrap64_window_start in Hu.
  set (start := wrap64 ((page m - 1) * perPage m)) in *.
  set (stop := if wrap64 (page m * perPage m) >? len (records m)
               then len (records m) else wrap64 (page m * perPage m)) in *.
  destruct (slice (records m) start stop) as [window|] eqn:Hs; [|discriminate].
  assert (Hb : 0 <= start <= stop /\ stop <= len (records m)).
  { destruct (Z_le_gt_dec 0 start) as [H0|H0];
      [destruct (Z_le_gt_dec start stop) as [H1|H1];
       [destruct (Z_le_gt_dec stop (len (records m))) as [H2|H2]; [lia|]|]|];
      exfalso; assert (Hn : slice (records m) start stop = None)
        by (apply slice_panics; lia); congruence. }
  rewrite slice_bounds in Hs by lia. injection Hs as <-.
  rewrite (wrap64_id (1 + start)) in Hu
    by (unfold in_int, min_int, max_int in *; lia).
  assert (Hrows : rows (table m') =
                  range_from (1 + start)
                             (firstn (Z.to_nat (stop - start))
                                     (skipn (Z.to_nat start) (records m))))
    by (injection Hu as <-; reflexivity).
  clear Hu. rewrite Hrows.
  split; [lia|]. split.
  - assert (Hl : forall A (l : list A) i, List.length (range_from i l) = List.length l).
    { intros A l. induction l as [|x l IH]; intros i; cbn; [reflexivity|].
      now rewrite IH. }
    rewrite Hl, length_firstn, length_skipn. lia.
  - intros i row Hrow. rewrite range_from_nth in Hrow.
    destruct (nth_error (firstn _ _) i) as [r|] eqn:Hr; [|discriminate].
    assert (Hrw : row = (1 + start + Z.of_nat i, r))
      by (cbn [option_map] in Hrow; congruence).
    rewrite Hrw. cbn [fst snd]. split; [lia|].
    rewrite nth_error_firstn in Hr.
    destruct (i <? Z.to_nat (stop - start))%nat; [|discriminate].
    now rewrite nth_error_skipn in Hr.
Qed.

(** *** Pages *)

Section Navigation.

Variable unicode_Map_ToLower : string -> string.
Variable sort_Slice :
  (CryptoRecord -> CryptoRecord -> option bool) ->
  list CryptoRecord -> option (list CryptoRecord).

Hypothesis sort_is_permutation : sort_permutes sort_Slice.

Local Abbreviation press := (fun key => Update unicode_Map_ToLower sort_Slice (KeyMsg key)).
Local Abbreviation play := (run unicode_Map_ToLower sort_Slice).

(** [50 * pages <= len + 49 < 50 * pages + 50] for a non-empty list. *)
Lemma pages_spec rs :
  1 <= pages rs /\ (len rs + 49) / 50 <= pages rs /\
  50 * ((len rs + 49) / 50) <= len rs + 49 < 50 * ((len rs + 49) / 50) + 50.
Proof.
  unfold pages.
  pose proof (Z.mul_div_le (len rs + 49) 50 ltac:(lia)).
  pose proof (Z.mul_succ_div_gt (len rs + 49) 50 ltac:(lia)). lia.
Qed.

Lemma nav_ok_initial rs : nav_ok rs (initial_model rs).
Proof.
  unfold nav_ok, window_ok, initial_model, len. cbn.
  pose proof (Nat2Z.is_nonneg (List.length rs)). repeat split; auto; lia.
Qed.

(** What a press of the right or the left key does to a state reached by
    navigation. *)
Lemma press_right rs m :
  allocatable rs -> window_ok rs m ->
  (page m * 50 < len rs ->
   exists m', press "right" m = Some m' /\ m' = set_table (set_page m (page m + 1)) (table m') /\
              updateTable m' = Some m') /\
  (len rs <= page m * 50 -> press "right" m = Some m).
Proof.
  intros Hrs Hok. pose proof Hok as (Hpp & Hp & Hstart & Hlen).
  pose proof (allocatable_room rs Hrs) as Hroom.
  cbn [Update String.eqb Ascii.eqb Bool.eqb].
  rewrite Hpp, Hlen, (wrap64_id (page m * 50))
    by (unfold in_int, min_int, max_int in *; lia).
  split; intros Hcase.
  - apply Z.ltb_lt in Hcase. rewrite Hcase. apply Z.ltb_lt in Hcase.
    rewrite (wrap64_id (page m + 1)) by (unfold in_int, min_int, max_int in *; lia).
    destruct (window_ok_updateTable rs (set_page m (page m + 1)) Hrs)
      as (m' & Hu & _).
    { unfold window_ok. cbn. repeat split; auto; lia. }
    exists m'. split; [exact Hu|]. pose proof (updateTable_fields _ _ Hu) as Hf.
    split; [exact Hf|]. rewrite Hf at 1.
    revert Hu. unfold updateTable. cbn [set_table set_page records page perPage sortBy sortAsc].
    destruct (slice _ _ _); [|discriminate]. intros [= <-]. reflexivity.
  - apply Z.ltb_ge in Hcase. now rewrite Hcase.
Qed.

Lemma press_left rs m :
  allocatable rs -> window_ok rs m ->
  (1 < page m ->
   exists m', press "left" m = Some m' /\ m' = set_table (set_page m (page m - 1)) (table m') /\
              updateTable m' = Some m') /\
  (page m <= 1 -> press "left" m = Some m).
Proof.
  intros Hrs Hok. pose proof Hok as (Hpp & Hp & Hstart & Hlen).
  pose proof (allocatable_room rs Hrs) as Hroom.
  cbn [Update String.eqb Ascii.eqb Bool.eqb].
  split; intros Hcase.
  - destruct (Z.gtb_spec (page m) 1) as [_|Hle]; [|lia].
    rewrite (wrap64_id (page m - 1)) by (unfold in_int, min_int, max_int in *; lia).
    destruct (window_ok_updateTable rs (set_page m (page m - 1)) Hrs)
      as (m' & Hu & _).
    { unfold window_ok. cbn. repeat split; auto; lia. }
    exists m'. split; [exact Hu|]. pose proof (updateTable_fields _ _ Hu) as Hf.
    split; [exact Hf|]. rewrite Hf at 1.
    revert Hu. unfold updateTable. cbn [set_table set_page records page perPage sortBy sortAsc].
    destruct (slice _ _ _); [|discriminate]. intros [= <-]. reflexivity.
  - destruct (Z.gtb_spec (page m) 1) as [Hgt|_]; [lia | reflexivity].
Qed.

(** [updateTable] does not look at the table it replaces. *)
Lemma updateTable_idempotent m m' :
  updateTable m = Some m' -> updateTable m' = Some m'.
Proof.
  intros Hu. pose proof (updateTable_fields _ _ Hu) as Hf. rewrite Hf at 1.
  revert Hu. unfold updateTable. cbn [set_table records page perPage sortBy sortAsc].
  destruct (slice _ _ _); [|discriminate]. intros [= <-]. reflexivity.
Qed.

(** [Update] returns the model it was given or one whose table
    [updateTable] has just built. *)
Lemma Update_result msg m m' :
  Update unicode_Map_ToLower sort_Slice msg m = Some m' ->
  m' = m \/ updateTable m' = Some m'.
Proof.
  destruct msg as [key| |w h]; cbn [Update]; try (intros [= <-]; now left).
  destruct (key =? "enter")%string.
  { destruct (rows (table m)); [discriminate | intros [= <-]; now left]. }
  destruct (key =? "right")%string.
  { destruct (_ <? _); [|intros [= <-]; now left].
    intros Hu. right. now apply updateTable_idempotent in Hu. }
  destruct (key =? "left")%string.
  { destruct (_ >? _); [|intros [= <-]; now left].
    intros Hu. right. now apply updateTable_idempotent in Hu. }
  destruct (is_sort_key key); [|intros [= <-]; now left].
  destruct (sortRecords _ _ _) as [m2|]; [|discriminate].
  intros Hu. right. now apply updateTable_idempotent in Hu.
Qed.

(** From the first key press that has an effect on, the table on display is
    the one [updateTable] derives from the current records, page and sort
    key: it is never stale. *)
Theorem table_follows_state rs msgs m :
  play msgs (initial_model rs) = Some m ->
  m = initial_model rs \/ updateTable m = Some m.
Proof.
  assert (H : forall m0, m0 = initial_model rs \/ updateTable m0 = Some m0 ->
                         play msgs m0 = Some m ->
                         m = initial_model rs \/ updateTable m = Some m).
  { induction msgs as [|msg msgs IH]; intros m0 H0; cbn [run].
    - now intros [= <-].
    - destruct (Update unicode_Map_ToLower sort_Slice msg m0) as [m1|] eqn:Hu;
        [|discriminate].
      apply IH. destruct (Update_result msg m0 m1 Hu) as [->|H1]; auto. }
  apply H. now left.
Qed.

Lemma Update_keeps_loading msg m m' :
  Update unicode_Map_ToLower sort_Slice msg m = Some m' -> loading m' = loading m.
Proof.
  destruct msg as [key| |w h]; cbn [Update]; try (now intros [= <-]).
  destruct (key =? "enter")%string.
  { destruct (rows (table m)); [discriminate | now intros [= <-]]. }
  destruct (key =? "right")%string.
  { destruct (_ <? _); [|now intros [= <-]].
    intros Hu. apply updateTable_fields in Hu. now rewrite Hu. }
  destruct (key =? "left")%string.
  { destruct (_ >? _); [|now intros [= <-]].
    intros Hu. apply updateTable_fields in Hu. now rewrite Hu. }
  destruct (is_sort_key key); [|now intros [= <-]].
  destruct (sortRecords _ _ _) as [m2|] eqn:Hs; [|discriminate].
  intros Hu. apply updateTable_fields in Hu. apply sortRecords_fields in Hs.
  rewrite Hu, Hs. cbn. unfold toggleSort. now destruct (sortBy m =? key)%string.
Qed.

(** No message sets [loading]: in every state the program reaches [View]
    renders the table, never the spinner line. *)
Theorem spinner_is_never_shown rs msgs m :
  play msgs (initial_model rs) = Some m ->
  loading m = false /\ View.View m = TableScreen (table m).
Proof.
  assert (H : forall m0, loading m0 = false -> play msgs m0 = Some m ->
                         loading m = false).
  { induction msgs as [|msg msgs IH]; intros m0 H0; cbn [run].
    - now intros [= <-].
    - destruct (Update unicode_Map_ToLower sort_Slice msg m0) as [m1|] eqn:Hu;
        [|discriminate].
      apply IH. now rewrite (Update_keeps_loading msg m0 m1 Hu). }
  intros Hrun. assert (Hl : loading m = false) by (apply (H (initial_model rs) eq_refl Hrun)).
  split; [exact Hl|]. unfold View.View. now rewrite Hl.
Qed.

(** Page navigation keeps [nav_ok]. *)
Lemma nav_ok_Update rs msg m m' :
  allocatable rs -> nav_ok rs m ->
  Update unicode_Map_ToLower sort_Slice msg m = Some m' -> nav_ok rs m'.
Proof.
  intros Hrs (Hok & Hpage) Hu.
  split; [now apply (window_ok_Update unicode_Map_ToLower sort_Slice
                       sort_is_permutation rs msg m m')|].
  pose proof Hok as (Hpp & Hp & Hstart & Hlen).
  destruct msg as [key| |w h]; try (cbn [Update] in Hu; injection Hu as <-; exact Hpage).
  destruct (String.eqb_spec key "right") as [->|Hnr].
  { destruct (Z.lt_ge_cases (page m * 50) (len rs)) as [Hlt|Hge].
    - destruct (proj1 (press_right rs m Hrs Hok) Hlt) as (m1 & H1 & Hf & _).
      rewrite H1 in Hu. injection Hu as <-. rewrite Hf. cbn. right. lia.
    - rewrite (proj2 (press_right rs m Hrs Hok) Hge) in Hu. now injection Hu as <-. }
  destruct (String.eqb_spec key "left") as [->|Hnl].
  { destruct (Z.lt_ge_cases 1 (page m)) as [Hlt|Hge].
    - destruct (proj1 (press_left rs m Hrs Hok) Hlt) as (m1 & H1 & Hf & _).
      rewrite H1 in Hu. injection Hu as <-. rewrite Hf. cbn. lia.
    - rewrite (proj2 (press_left rs m Hrs Hok) Hge) in Hu. now injection Hu as <-. }
  destruct (is_sort_key key) eqn:Hk.
  - destruct (Update_sort_key_flags unicode_Map_ToLower sort_Slice key m m' Hk Hu)
      as (_ & _ & Hpg & _).
    now rewrite Hpg.
  - cbn [Update] in Hu.
    apply String.eqb_neq in Hnr, Hnl. rewrite Hnr, Hnl, Hk in Hu.
    destruct (key =? "enter")%string; [destruct (rows (table m)); [discriminate|]|];
      now injection Hu as <-.
Qed.

Lemma nav_ok_run rs msgs :
  forall m m', allocatable rs -> nav_ok rs m -> play msgs m = Some m' -> nav_ok rs m'.
Proof.
  induction msgs as [|msg msgs IH]; intros m m' Hrs Hok; cbn [run].
  - now intros [= <-].
  - destruct (Update unicode_Map_ToLower sort_Slice msg m) as [m1|] eqn:Hu;
      [|discriminate].
    apply IH; auto. now apply (nav_ok_Update rs msg m).
Qed.

(** Navigation never leaves the pages that have records: the page is
    between 1 and [pages], its window holds [min(50, len - start)] records,
    and is empty only when there are no records at all. *)
Theorem page_stays_within_pages rs msgs m :
  allocatable rs ->
  play msgs (initial_model rs) = Some m ->
  1 <= page m <= pages rs /\
  exists m',
    updateTable m = Some m' /\
    len (rows (table m')) = Z.min 50 (len rs - (page m - 1) * 50) /\
    (rs <> [] -> rows (table m') <> []).
Proof.
  intros Hrs Hrun.
  pose proof (nav_ok_run rs msgs _ _ Hrs (nav_ok_initial rs) Hrun) as (Hok & Hpage).
  pose proof Hok as (Hpp & Hp & Hstart & Hlen).
  pose proof (allocatable_room rs Hrs) as Hroom.
  pose proof (pages_spec rs) as (Hp1 & Hp2 & Hdiv).
  split.
  - split; [exact Hp|]. destruct Hpage as [->|Hin]; [exact Hp1|].
    apply Z.le_trans with ((len rs + 49) / 50); [|exact Hp2].
    apply Z.div_le_lower_bound; lia.
  - destruct (window_ok_updateTable rs m Hrs Hok) as (m' & Hu & _).
    exists m'. split; [exact Hu|].
    pose proof (updateTable_window m) as Hw. rewrite Hu, Hpp, Hlen in Hw.
    rewrite (wrap64_id ((page m - 1) * 50)) in Hw
      by (unfold in_int, min_int, max_int in *; lia).
    rewrite (wrap64_id (page m * 50)) in Hw
      by (unfold in_int, min_int, max_int in *; lia).
    rewrite <- Hlen in Hw. rewrite slice_bounds in Hw by lia.
    cbn [option_map] in Hw. injection Hw as Hw.
    assert (Hlenrows : len (rows (table m')) = Z.min 50 (len rs - (page m - 1) * 50)).
    { unfold len at 1. rewrite <- (length_map snd), Hw, length_firstn, length_skipn.
      unfold len in *. lia. }
    split; [exact Hlenrows|].
    intros Hne Hrows. rewrite Hrows in Hlenrows. unfold len at 1 in Hlenrows.
    cbn [List.length] in Hlenrows.
    assert (0 < len rs) by (unfold len; destruct rs; [congruence | cbn; lia]).
    lia.
Qed.

(** A run from the start ends in the start state or in a state whose
    table is the one [updateTable] derives from it. *)
Lemma derived_table_run rs msgs :
  forall m0 m,
    m0 = initial_model rs \/ updateTable m0 = Some m0 ->
    play msgs m0 = Some m ->
    m = initial_model rs \/ updateTable m = Some m.
Proof.
  induction msgs as [|msg msgs IH]; intros m0 m H0; cbn [run].
  - now intros [= <-].
  - destruct (Update unicode_Map_ToLower sort_Slice msg m0) as [m1|] eqn:Hu;
      [|discriminate].
    apply IH. destruct (Update_result msg m0 m1 Hu) as [->|H1]; auto.
Qed.

(** Right and left undo each other, on the fields of the model and on the
    columns and rows of the table.  When the right key moves to the next
    page, the left key then gives the state of before with the table
    [updateTable] derives from it: the very same state, unless that was the
    untouched start state, whose table [main] built.  When the left key
    moves back, the right key then gives the very same state again. *)
Theorem right_and_left_are_inverse rs msgs m :
  allocatable rs ->
  play msgs (initial_model rs) = Some m ->
  (page m * 50 < len rs ->
   exists m1, press "right" m = Some m1 /\ page m1 = page m + 1 /\
              press "left" m1 = updateTable m /\
              (m <> initial_model rs -> press "left" m1 = Some m)) /\
  (1 < page m ->
   exists m1, press "left" m = Some m1 /\ page m1 = page m - 1 /\
              press "right" m1 = Some m).
Proof.
  intros Hrs Hrun.
  pose proof (derived_table_run rs msgs _ _ (or_introl eq_refl) Hrun) as Hder.
  assert (Hboth :
            (page m * 50 < len rs ->
             exists m1, press "right" m = Some m1 /\ page m1 = page m + 1 /\
                        press "left" m1 = updateTable m) /\
            (1 < page m ->
             exists m1, press "left" m = Some m1 /\ page m1 = page m - 1 /\
                        press "right" m1 = updateTable m)).
  { pose proof (nav_ok_run rs msgs _ _ Hrs (nav_ok_initial rs) Hrun) as (Hok & Hpage).
    pose proof Hok as (Hpp & Hp & Hstart & Hlen).
    assert (Hsame : forall m1 p t,
               m1 = set_table (set_page m p) t ->
               updateTable (set_page m1 (page m)) = updateTable m).
    { intros m1 p t ->. unfold updateTable.
      cbn [set_table set_page records page perPage sortBy sortAsc].
      destruct (slice _ _ _); reflexivity. }
    split; intros Hcase.
    - destruct (proj1 (press_right rs m Hrs Hok) Hcase) as (m1 & H1 & Hf & _).
      exists m1. split; [exact H1|].
      assert (Hp1 : page m1 = page m + 1) by (rewrite Hf; reflexivity).
      split; [exact Hp1|].
      assert (Hok1 : window_ok rs m1)
        by (apply (window_ok_Update unicode_Map_ToLower sort_Slice sort_is_permutation
                     rs (KeyMsg "right") m m1 Hrs Hok H1)).
      destruct (proj1 (press_left rs m1 Hrs Hok1) ltac:(lia)) as (m2 & H2 & _).
      rewrite <- (Hsame m1 (page m + 1) (table m1) Hf).
      rewrite H2. cbn [Update String.eqb Ascii.eqb Bool.eqb] in H2.
      destruct (Z.gtb_spec (page m1) 1) as [_|Hle]; [|lia].
      rewrite Hp1 in H2 at 1.
      replace (page m + 1 - 1) with (page m) in H2 by lia.
      rewrite (wrap64_id (page m)) in H2
        by (pose proof (allocatable_room rs Hrs);
            unfold in_int, min_int, max_int in *; lia).
      now rewrite H2.
    - destruct (proj1 (press_left rs m Hrs Hok) Hcase) as (m1 & H1 & Hf & _).
      exists m1. split; [exact H1|].
      assert (Hp1 : page m1 = page m - 1) by (rewrite Hf; reflexivity).
      split; [exact Hp1|].
      assert (Hok1 : window_ok rs m1)
        by (apply (window_ok_Update unicode_Map_ToLower sort_Slice sort_is_permutation
                     rs (KeyMsg "left") m m1 Hrs Hok H1)).
      assert (Hin : page m1 * 50 < len rs) by (destruct Hpage; lia).
      destruct (proj1 (press_right rs m1 Hrs Hok1) Hin) as (m2 & H2 & _).
      rewrite <- (Hsame m1 (page m - 1) (table m1) Hf).
      rewrite H2. cbn [Update String.eqb Ascii.eqb Bool.eqb] in H2.
      destruct Hok1 as (Hpp1 & _ & _ & Hlen1).
      rewrite Hpp1, Hlen1 in H2.
      rewrite (wrap64_id (page m1 * 50)) in H2
        by (pose proof (allocatable_room rs Hrs);
            unfold in_int, min_int, max_int in *; lia).
      apply Z.ltb_lt in Hin. rewrite Hin in H2.
      rewrite Hp1 in H2 at 1.
      replace (page m - 1 + 1) with (page m) in H2 by lia.
      rewrite (wrap64_id (page m)) in H2
        by (pose proof (allocatable_room rs Hrs);
            unfold in_int, min_int, max_int in *; lia).
      now rewrite H2. }
  destruct Hboth as (Hright & Hleft). split; intros Hcase.
  - destruct (Hright Hcase) as (m1 & H1 & Hp1 & H2).
    exists m1. split; [exact H1|]. split; [exact Hp1|]. split; [exact H2|].
    intros Hne. destruct Hder as [->|Hd]; [congruence|]. now rewrite H2.
  - destruct (Hleft Hcase) as (m1 & H1 & Hp1 & H2).
    exists m1. split; [exact H1|]. split; [exact Hp1|].
    destruct Hder as [->|Hd]; [cbn [initial_model page] in Hcase; lia|].
    now rewrite H2.
Qed.

(** Pressing right [k] times from the start ends on page [1 + k], or on the
    last page when there are fewer: the key stops at the last page and does
    not wrap around. *)
Theorem right_stops_at_the_last_page rs k :
  allocatable rs ->
  exists m,
    play (repeat (KeyMsg "right") k) (initial_model rs) = Some m /\
    page m = Z.min (1 + Z.of_nat k) (pages rs) /\
    records m = rs.
Proof.
  intros Hrs.
  assert (H : forall k m,
             window_ok rs m -> page m <= pages rs ->
             exists m', play (repeat (KeyMsg "right") k) m = Some m' /\
                        page m' = Z.min (page m + Z.of_nat k) (pages rs) /\
                        records m' = records m).
  { clear k. induction k as [|k IH]; intros m Hok Hle.
    - exists m. cbn [repeat run]. repeat split; auto. lia.
    - cbn [repeat run]. pose proof Hok as (Hpp & Hp & Hstart & Hlen).
      pose proof (pages_spec rs) as (Hp1 & Hp2 & Hdiv).
      destruct (Z.lt_ge_cases (page m * 50) (len rs)) as [Hlt|Hge].
      + destruct (proj1 (press_right rs m Hrs Hok) Hlt) as (m1 & H1 & Hf & _).
        rewrite H1.
        assert (Hok1 : window_ok rs m1)
          by (apply (window_ok_Update unicode_Map_ToLower sort_Slice
                       sort_is_permutation rs (KeyMsg "right") m m1 Hrs Hok H1)).
        assert (Hp1' : page m1 = page m + 1) by (rewrite Hf; reflexivity).
        assert (Hle1 : page m1 <= pages rs).
        { rewrite Hp1'. apply Z.le_trans with ((len rs + 49) / 50); [|exact Hp2].
          apply Z.div_le_lower_bound; lia. }
        destruct (IH m1 Hok1 Hle1) as (m' & Hrun & Hpg & Hrec).
        exists m'. split; [exact Hrun|]. split; [rewrite Hpg, Hp1'; f_equal; lia|].
        rewrite Hrec, Hf. reflexivity.
      + rewrite (proj2 (press_right rs m Hrs Hok) Hge).
        destruct (IH m Hok Hle) as (m' & Hrun & Hpg & Hrec).
        exists m'. split; [exact Hrun|]. split; [|exact Hrec].
        assert (pages rs <= page m).
        { unfold pages. apply Z.max_lub; [exact Hp|].
          assert ((len rs + 49) / 50 < page m + 1); [|lia].
          apply Z.div_lt_upper_bound; lia. }
        lia. }
  destruct (H k (initial_model rs)) as (m & Hrun & Hpg & Hrec).
  - apply nav_ok_initial.
  - cbn [initial_model page]. apply pages_spec.
  - exists m. repeat split; auto.
Qed.

End Navigation.

(** *** The table [main] starts with *)

(** The table the program starts with lists every record, ranked from 1,
    under headers without an arrow.  It is not the table [updateTable]
    derives from the same state: that one has the arrow on the Rank column
    and only the first 50 records. *)
Theorem start_table_lists_everything rs :
  allocatable rs ->
  map snd (rows (table (initial_model rs))) = rs /\
  map fst (rows (table (initial_model rs))) =
    map (fun i => 1 + Z.of_nat i) (seq 0 (List.length rs)) /\
  columns (table (initial_model rs)) = base_columns /\
  exists m',
    updateTable (initial_model rs) = Some m' /\
    map snd (rows (table m')) = firstn 50 rs /\
    nth_error (columns (table m')) 0 = Some (("Rank" ++ getSortArrow true)%string, 6) /\
    columns (table m') <> columns (table (initial_model rs)) /\
    (50 < len rs -> rows (table m') <> rows (table (initial_model rs))).
Proof.
  intros Hrs. cbn [initial_model table rows columns].
  split; [apply map_snd_range_from|]. split; [|split; [reflexivity|]].
  { assert (H : forall (l : list CryptoRecord) i,
               map fst (range_from i l) =
               map (fun j => i + Z.of_nat j) (seq 0 (List.length l))).
    { induction l as [|x l IH]; intros i; [reflexivity|].
      cbn [range_from map List.length seq]. rewrite Z.add_0_r. f_equal.
      rewrite IH, <- seq_shift, map_map. apply map_ext. intros j. lia. }
    apply H. }
  pose proof (allocatable_room rs Hrs) as Hroom.
  assert (Hok : window_ok rs (initial_model rs)).
  { unfold window_ok, initial_model, len. cbn.
    pose proof (Nat2Z.is_nonneg (List.length rs)). repeat split; lia. }
  destruct (window_ok_updateTable rs (initial_model rs) Hrs Hok) as (m' & Hu & _).
  exists m'. split; [exact Hu|].
  pose proof (updateTable_window (initial_model rs)) as Hw.
  rewrite Hu in Hw. cbn [initial_model page perPage records option_map] in Hw.
  change (wrap64 ((1 - 1) * 50)) with 0 in Hw.
  change (wrap64 (1 * 50)) with 50 in Hw.
  assert (Hlen0 : 0 <= len rs) by (unfold len; lia).
  rewrite slice_bounds in Hw by lia. injection Hw as Hw.
  cbn [Z.to_nat skipn] in Hw. rewrite Z.sub_0_r in Hw.
  assert (Hrows : map snd (rows (table m')) = firstn 50 rs).
  { rewrite Hw. destruct (Z.le_gt_cases 50 (len rs)) as [Hle|Hgt].
    - now rewrite Z.min_l by lia.
    - rewrite Z.min_r by lia. unfold len. rewrite Nat2Z.id.
      rewrite firstn_all. symmetry. apply firstn_all2. unfold len in Hgt. lia. }
  split; [exact Hrows|].
  assert (H0 : nth_error (columns (table m')) 0
               = Some (("Rank" ++ getSortArrow true)%string, 6)).
  { revert Hu. unfold updateTable.
    cbn [initial_model sortBy sortAsc records page perPage].
    destruct (slice _ _ _); [|discriminate]. intros [= <-]. reflexivity. }
  split; [exact H0|]. split.
  - intros Heq. rewrite Heq in H0. cbn in H0. discriminate H0.
  - intros Hbig Heq.
    assert (Hl : List.length (map snd (rows (table m'))) = List.length rs)
      by (rewrite Heq; now rewrite map_snd_range_from).
    rewrite Hrows, length_firstn in Hl. unfold len in Hbig. lia.
Qed.

End ViewCoverage.

Module ViewCoverageExamples.
Import View SortFacts ViewFacts ViewCoverage Sample ViewExamples.

Local Abbreviation play := (run caseless insertionSort_func).

Lemma many_coins_allocatable : allocatable many_coins.
Proof. vm_compute. discriminate. Qed.

(** The three coins by market capitalisation, ascending. *)
Lemma numeric_sort_orders_witness :
  exists m',
    sortRecords caseless insertionSort_func (started three_coins) = Some m' /\
    m' = set_records (started three_coins) (records m') /\
    Permutation three_coins (records m') /\
    StronglySorted
      (fun a b => PrimFloat.leb (MarketCap a) (MarketCap b) = true) (records m').
Proof.
  apply (numeric_sort_orders caseless insertionSort_func insertionSort_permutes
           insertionSort_returns insertionSort_orders (started three_coins) MarketCap
           eq_refl).
  intros r [<-|[<-|[<-|[]]]]; reflexivity.
Defined.

(** The three coins by name, ascending. *)
Lemma name_sort_orders_witness :
  exists m',
    sortRecords caseless insertionSort_func (by_name three_coins) = Some m' /\
    m' = set_records (by_name three_coins) (records m') /\
    Permutation three_coins (records m') /\
    StronglySorted (fun a b => name_key caseless a <= name_key caseless b) (records m').
Proof.
  apply (name_sort_orders caseless insertionSort_func insertionSort_permutes
           insertionSort_returns insertionSort_orders caseless_nonempty
           (by_name three_coins) eq_refl).
  intros r [<-|[<-|[<-|[]]]]; discriminate.
Defined.

(** A press of [p] on the three coins. *)
Lemma sort_key_press_permutes_witness :
  match Update caseless insertionSort_func (KeyMsg "p") (started three_coins) with
  | Some m' => Permutation three_coins (records m') /\ page m' = 1 /\ perPage m' = 50
  | None => False
  end.
Proof.
  destruct (Update caseless insertionSort_func (KeyMsg "p") (started three_coins))
    as [m'|] eqn:Hu; [|vm_compute in Hu; discriminate Hu].
  exact (sort_key_press_permutes caseless insertionSort_func insertionSort_permutes
           "p" (started three_coins) m' eq_refl Hu).
Defined.

(** The header at the start of a session sorted by rank: the arrow is on
    the first column after [updateTable]. *)
Lemma header_decoration_witness :
  match updateTable (started three_coins) with
  | Some m' =>
      nth_error (columns (table m')) 0 = Some (("Rank" ++ getSortArrow true)%string, 6) /\
      nth_error (columns (table m')) 1 = Some ("Name", 20) /\
      map snd (columns (table m')) = map snd base_columns
  | None => False
  end.
Proof.
  destruct (updateTable (started three_coins)) as [m'|] eqn:Hu;
    [|vm_compute in Hu; discriminate Hu].
  destruct (header_decoration (started three_coins) m' Hu) as (Hnth & Hw & _).
  split; [exact (Hnth 0%nat)|]. split; [exact (Hnth 1%nat) | exact Hw].
Defined.

(** Page 3 of 120 records: the first row is record 100 under rank 101. *)
Lemma rows_are_positions_witness :
  match updateTable (set_page (started many_coins) 3) with
  | Some m' =>
      forall row, nth_error (rows (table m')) 0 = Some row ->
                  fst row = 101 /\ nth_error many_coins 100 = Some (snd row)
  | None => False
  end.
Proof.
  destruct (updateTable (set_page (started many_coins) 3)) as [m'|] eqn:Hu;
    [|vm_compute in Hu; discriminate Hu].
  assert (Hlen : len (records (set_page (started many_coins) 3)) < max_int)
    by (vm_compute; reflexivity).
  destruct (rows_are_positions (set_page (started many_coins) 3) m' Hu Hlen)
    as (_ & _ & Hrow).
  intros row H. exact (Hrow 0%nat row H).
Defined.

(** After the session the table is the one of the state. *)
Lemma table_follows_state_witness :
  match play a_session (started many_coins) with
  | Some m => m = initial_model many_coins \/ updateTable m = Some m
  | None => False
  end.
Proof.
  destruct (play a_session (started many_coins)) as [m|] eqn:Hrun;
    [|vm_compute in Hrun; discriminate Hrun].
  exact (table_follows_state caseless insertionSort_func many_coins a_session m Hrun).
Defined.

Lemma spinner_is_never_shown_witness :
  match play a_session (started many_coins) with
  | Some m => loading m = false /\ View.View m = TableScreen (table m)
  | None => False
  end.
Proof.
  destruct (play a_session (started many_coins)) as [m|] eqn:Hrun;
    [|vm_compute in Hrun; discriminate Hrun].
  exact (spinner_is_never_shown caseless insertionSort_func many_coins a_session m Hrun).
Defined.

(** 120 records make three pages; the session ends on one of them. *)
Lemma page_stays_within_pages_witness :
  match play a_session (started many_coins) with
  | Some m =>
      1 <= page m <= pages many_coins /\
      exists m', updateTable m = Some m' /\
                 len (rows (table m')) = Z.min 50 (len many_coins - (page m - 1) * 50) /\
                 (many_coins <> [] -> rows (table m') <> [])
  | None => False
  end.
Proof.
  destruct (play a_session (started many_coins)) as [m|] eqn:Hrun;
    [|vm_compute in Hrun; discriminate Hrun].
  exact (page_stays_within_pages caseless insertionSort_func insertionSort_permutes
           many_coins a_session m many_coins_allocatable Hrun).
Defined.

(** On page 2 of 120 records the right key moves to page 3 and the left
    key comes back to the same state; the left key moves to page 1 and the
    right key comes back to the same state. *)
Lemma right_and_left_are_inverse_witness :
  match play [KeyMsg "right"] (started many_coins) with
  | Some m =>
      (exists m1,
          Update caseless insertionSort_func (KeyMsg "right") m = Some m1 /\
          page m1 = page m + 1 /\
          Update caseless insertionSort_func (KeyMsg "left") m1 = Some m) /\
      (exists m1,
          Update caseless insertionSort_func (KeyMsg "left") m = Some m1 /\
          page m1 = page m - 1 /\
          Update caseless insertionSort_func (KeyMsg "right") m1 = Some m)
  | None => False
  end.
Proof.
  destruct (play [KeyMsg "right"] (started many_coins)) as [m|] eqn:Hrun;
    [|vm_compute in Hrun; discriminate Hrun].
  assert (Hpage : page m = 2).
  { vm_compute in Hrun. injection Hrun as <-. reflexivity. }
  destruct (right_and_left_are_inverse caseless insertionSort_func insertionSort_permutes
              many_coins [KeyMsg "right"] m many_coins_allocatable Hrun)
    as (Hright & Hleft).
  split.
  - destruct Hright as (m1 & H1 & Hp1 & _ & H2); [rewrite Hpage; vm_compute; reflexivity|].
    exists m1. split; [exact H1|]. split; [exact Hp1|]. apply H2.
    intros Heq. rewrite Heq in Hpage. discriminate Hpage.
  - destruct Hleft as (m1 & H1 & Hp1 & H2); [rewrite Hpage; reflexivity|].
    exists m1. split; [exact H1|]. split; [exact Hp1|]. exact H2.
Defined.

(** Five presses of the right key on 120 records end on page 3. *)
Lemma right_stops_at_the_last_page_witness :
  exists m,
    play (repeat (KeyMsg "right") 5) (started many_coins) = Some m /\
    page m = 3 /\ records m = many_coins.
Proof.
  exact (right_stops_at_the_last_page caseless insertionSort_func insertionSort_permutes
           many_coins 5 many_coins_allocatable).
Defined.

(** With 120 records the start table has 120 rows, the derived one 50. *)
Lemma start_table_lists_everything_witness :
  List.length (rows (table (initial_model many_coins))) = 120%nat /\
  exists m', updateTable (initial_model many_coins) = Some m' /\
             List.length (rows (table m')) = 50%nat.
Proof.
  destruct (start_table_lists_everything many_coins many_coins_allocatable)
    as (Hall & _ & _ & m' & Hu & Hrows & _).
  split.
  - rewrite <- (length_map snd), Hall. reflexivity.
  - exists m'. split; [exact Hu|].
    rewrite <- (length_map snd), Hrows. reflexivity.
Defined.

End ViewCoverageExamples.
